(** * BIO tagging notebook: corpus reader, tag dictionaries, inference writer
      and the span evaluation it calls.

    The notebook [notebook.ipynb] reads tab-separated corpora with
    [read_dataset], maps tags through the dictionaries [tag_to_ix] and
    [idx_to_tag], writes the predicted corpus, and hands both files to
    [evaluation.evaluate_f1_partial.main].

    Python [str] values are modelled as lists of Unicode code points, so that
    [str.isspace], [str.strip] and [str.split] keep their meaning on every
    character; exceptions are values of a sum type. *)

From Stdlib Require Import NArith ZArith QArith Ascii String List Lia.
From stdpp Require Import base option list gmap.

Local Open Scope list_scope.

(** ** Python strings *)

(** A [str] is a sequence of code points. *)
Abbreviation str := (list N) (only parsing).

Definition TAB : N := 9%N.
Definition NL : N := 10%N.

(** Literals: the code points of an ASCII/Latin-1 literal. *)
Definition py (s : string) : str := map N_of_ascii (list_ascii_of_string s).

(** The characters on which [str.isspace] is true (CPython's
    [_PyUnicode_IsWhitespace]). *)
Definition isspace_char (c : N) : bool :=
  (((9 <=? c) && (c <=? 13)) || ((28 <=? c) && (c <=? 32))
   || (c =? 133) || (c =? 160) || (c =? 5760)
   || ((8192 <=? c) && (c <=? 8202))
   || (c =? 8232) || (c =? 8233) || (c =? 8239) || (c =? 8287)
   || (c =? 12288))%N.

(** [s.isspace()]: at least one character, and all of them whitespace. *)
Definition isspace (s : str) : bool :=
  match s with
  | [] => false
  | _ => forallb isspace_char s
  end.

Fixpoint lstrip (s : str) : str :=
  match s with
  | [] => []
  | c :: r => if isspace_char c then lstrip r else s
  end.

Definition rstrip (s : str) : str := rev (lstrip (rev s)).

(** [s.strip()] *)
Definition strip (s : str) : str := rstrip (lstrip s).

(** [s.split(sep)] for a one-character separator: one more field than there
    are separators, empty fields kept. *)
Fixpoint split (sep : N) (s : str) : list str :=
  match s with
  | [] => [[]]
  | c :: r =>
      if (c =? sep)%N then [] :: split sep r
      else match split sep r with
           | f :: fs => (c :: f) :: fs
           | [] => [[c]]
           end
  end.

(** [for line in f]: the text of the file, as the text-mode file object
    delivers it (line ends already translated to a newline), cut after every
    newline, the newline kept; a last line without newline is a line too. *)
Fixpoint file_lines (text : str) : list str :=
  match text with
  | [] => []
  | c :: r =>
      if (c =? NL)%N then [NL] :: file_lines r
      else match r with
           | [] => [[c]]
           | _ => match file_lines r with
                  | l :: ls => (c :: l) :: ls
                  | [] => [[c]]
                  end
           end
  end.

(** ** Exceptions *)

Inductive exn : Type :=
| ValueError (msg : string)
| KeyError (key : N).

Definition exn_name (e : exn) : string :=
  match e with
  | ValueError _ => "ValueError"
  | KeyError _ => "KeyError"
  end.

(** A computation that returns or raises. *)
Definition result (A : Type) : Type := exn + A.

#[global] Instance result_ret : MRet result := fun _ a => inr a.
#[global] Instance result_bind : MBind result := fun _ _ k m =>
  match m with
  | inl e => inl e
  | inr a => k a
  end.

Definition raise {A} (e : exn) : result A := inl e.

(** ** read_dataset *)

(** [word, tag = fields]: tuple unpacking of a list into two names. *)
Definition unpack2 (fields : list str) : result (str * str) :=
  match fields with
  | [a; b] => mret (a, b)
  | [] => raise (ValueError "not enough values to unpack (expected 2, got 0)")
  | [_] => raise (ValueError "not enough values to unpack (expected 2, got 1)")
  | _ => raise (ValueError "too many values to unpack (expected 2)")
  end.

(** The three lists the loop of [read_dataset] updates. *)
Record reader : Type := Reader {
  data : list (list str * list str);
  sentence : list str;
  tags : list str
}.

Definition reader_init : reader := Reader [] [] [].

(** The default value of the parameter [splitter]; no call passes another. *)
Definition splitter : N := TAB.

(** One turn of the loop body. *)
Definition read_line (st : reader) (line : str) : result reader :=
  if negb (isspace line) then
    '(word, tag) ← unpack2 (split splitter line);
    mret (Reader (data st) (sentence st ++ [word]) (tags st ++ [strip tag]))
  else
    mret (Reader (data st ++ [(sentence st, tags st)]) [] []).

Fixpoint read_loop (st : reader) (lines : list str) : result reader :=
  match lines with
  | [] => mret st
  | line :: rest => st' ← read_line st line; read_loop st' rest
  end.

(** [read_dataset(filename)], on the text of the file. *)
Definition read_dataset (text : str) : result (list (list str * list str)) :=
  st ← read_loop reader_init (file_lines text); mret (data st).

(** ** The tag dictionaries *)

(** A dict built from a sequence of (key, value) pairs: a later pair
    replaces an earlier one with the same key. *)
Definition dict_of_items {K V} `{Countable K} (items : list (K * V)) : gmap K V :=
  fold_left (fun m kv => <[kv.1 := kv.2]> m) items ∅.

Definition tag_to_ix : gmap str N :=
  dict_of_items
    [ (py "O", 0%N);
      (py "B-Object", 1%N);
      (py "I-Object", 2%N);
      (py "B-Aspect", 3%N);
      (py "I-Aspect", 4%N);
      (py "B-Predicate", 5%N);
      (py "I-Predicate", 6%N) ].

(** [reversed] on a two-element tuple. *)
Definition reversed {A B} (kv : A * B) : B * A := (kv.2, kv.1).

(** [idx_to_tag = dict(map(reversed, tag_to_ix.items()))] *)
Definition idx_to_tag : gmap N str :=
  dict_of_items (map reversed (map_to_list tag_to_ix)).

(** [d[k]]: the value, or [KeyError]. *)
Definition getitem (d : gmap N str) (k : N) : result str :=
  match d !! k with
  | Some v => mret v
  | None => raise (KeyError k)
  end.

(** ** The inference writer *)

(** [[idx_to_tag[int(i)] for i in idxs]] *)
Fixpoint lookup_tags (idxs : list N) : result (list str) :=
  match idxs with
  | [] => mret []
  | i :: rest => t ← getitem idx_to_tag i; ts ← lookup_tags rest; mret (t :: ts)
  end.

(** The text written for one sentence: a line [i<TAB>y<NL>] for each pair
    of [zip(sentence[0], tags)], then an empty line. *)
Definition write_sentence (words tags : list str) : str :=
  concat (map (fun iy => iy.1 ++ [TAB] ++ iy.2 ++ [NL]) (zip words tags)) ++ [NL].

(** The text written for a sequence of sentences with their tags. *)
Definition write_sentences (sents : list (list str * list str)) : str :=
  concat (map (fun st => write_sentence st.1 st.2) sents).

Section Inference.
(** The tagger: [model(prepare_sequence(words, word_to_ix)).argmax(dim=-1)],
    one index for each word. *)
Variable tagger : list str -> list N.

(** The loop over [test_data]; [w] is what has been written so far. *)
Fixpoint write_loop (w : str) (test_data : list (list str * list str)) : result str :=
  match test_data with
  | [] => mret w
  | sentence :: rest =>
      tags ← lookup_tags (tagger sentence.1);
      write_loop (w ++ write_sentence sentence.1 tags) rest
  end.

(** The content of [test_file] after the loop. *)
Definition write_test_file (test_data : list (list str * list str)) : result str :=
  write_loop [] test_data.
End Inference.

(** ** The evaluation module [evaluation.evaluate_f1_partial]

    The notebook imports [main] from this module and prints the report it
    writes; the module's text is not part of the notebook. *)

(** Modelled from the spec: the closed set of categories of the module
    [evaluation.evaluate_f1_partial] ("a closed tagged-variant"). *)
Inductive category : Type := Aspect | Object | Predicate.

#[global] Instance category_eq_dec : EqDecision category.
Proof. solve_decision. Defined.

(** Modelled from the spec: the fixed enumeration order of the categories
    in [evaluation.evaluate_f1_partial]; it is the order of the lines of the
    report that the notebook prints (cell 13): aspect, object, predicate. *)
Definition categories : list category := [Aspect; Object; Predicate].

(** Modelled from the spec: the names of the categories in the tags read by
    [evaluation.evaluate_f1_partial] (section 6). *)
Definition category_name (c : category) : str :=
  match c with
  | Aspect => py "Aspect"
  | Object => py "Object"
  | Predicate => py "Predicate"
  end.

(** Modelled from the spec: a Tag of [evaluation.evaluate_f1_partial] is
    [O], [B-<category>] or [I-<category>]. *)
Inductive bio : Type :=
| TagO
| TagB (c : category)
| TagI (c : category).

#[global] Instance bio_eq_dec : EqDecision bio.
Proof. solve_decision. Defined.

(** Modelled from the spec: the text of a tag in the files read by
    [evaluation.evaluate_f1_partial]. *)
Definition tag_text (t : bio) : str :=
  match t with
  | TagO => py "O"
  | TagB c => py "B-" ++ category_name c
  | TagI c => py "I-" ++ category_name c
  end.

(** Modelled from the spec: the tags that [evaluation.evaluate_f1_partial]
    recognizes. *)
Definition all_tags : list bio :=
  TagO :: flat_map (fun c => [TagB c; TagI c]) categories.

(** Modelled from the spec: the errors of [evaluation.evaluate_f1_partial]
    (section 7, error taxonomy). *)
Inductive eval_error : Type :=
| MalformedLineError
| UnknownTagError (tag : str)
| SentenceCountMismatchError
| TokenMismatchError (sentence_index : nat)
| EmptyCorpusError.

(** Modelled from the spec: tag parsing of [evaluation.evaluate_f1_partial];
    "unrecognized tag text is an error, not silently ignored". *)
Definition parse_tag (s : str) : eval_error + bio :=
  match find (fun t => bool_decide (tag_text t = s)) all_tags with
  | Some t => inr t
  | None => inl (UnknownTagError s)
  end.

(** Modelled from the spec: a Span of [evaluation.evaluate_f1_partial],
    [(category, start_index, end_index)] with inclusive 0-based indices. *)
Record span : Type := Span {
  sp_cat : category;
  sp_start : nat;
  sp_end : nat
}.

#[global] Instance span_eq_dec : EqDecision span.
Proof. solve_decision. Defined.

(** *** Span Extractor *)

(** Modelled from the spec: closing the open span in the Span Extractor of
    [evaluation.evaluate_f1_partial] emits it. *)
Definition close_span (open : option span) (emitted : list span) : list span :=
  match open with
  | Some s => emitted ++ [s]
  | None => emitted
  end.

(** Modelled from the spec: one step of the decoding scan of the Span
    Extractor of [evaluation.evaluate_f1_partial] (section 4.2), on the tag
    at index [i]; the state is the spans emitted so far and the open span.
    For [I-<cat>] without an open span of the same category the rule names
    one effect, a new span at the current index: nothing is emitted there,
    and the new span takes the place of an open span of another category. *)
Definition scan_tag (i : nat) (st : list span * option span) (t : bio)
  : list span * option span :=
  let '(emitted, open) := st in
  match t with
  | TagO => (close_span open emitted, None)
  | TagB c => (close_span open emitted, Some (Span c i i))
  | TagI c =>
      match open with
      | Some s =>
          if bool_decide (sp_cat s = c)
          then (emitted, Some (Span c (sp_start s) i))
          else (emitted, Some (Span c i i))
      | None => (emitted, Some (Span c i i))
      end
  end.

(** Modelled from the spec: the left-to-right scan of the Span Extractor of
    [evaluation.evaluate_f1_partial], from index [i] on. *)
Fixpoint scan (i : nat) (st : list span * option span) (ts : list bio)
  : list span * option span :=
  match ts with
  | [] => st
  | t :: rest => scan (S i) (scan_tag i st t) rest
  end.

(** Modelled from the spec: the Span Extractor of
    [evaluation.evaluate_f1_partial]: scan left to right, then close any
    span still open. *)
Definition extract_spans (ts : list bio) : list span :=
  let '(emitted, open) := scan 0 ([], None) ts in close_span open emitted.

(** The span holds index [i]. *)
Definition covers (i : nat) (s : span) : bool :=
  (sp_start s <=? i) && (i <=? sp_end s).

(** The tag that a set of spans gives to index [i]: that of the first span
    that holds it. *)
Definition tag_at (spans : list span) (i : nat) : bio :=
  match find (covers i) spans with
  | Some s => if i =? sp_start s then TagB (sp_cat s) else TagI (sp_cat s)
  | None => TagO
  end.

(** Modelled from the spec: the re-encoding of spans as a tag sequence of
    length [n] of [evaluation.evaluate_f1_partial] (sections 4.2 and 8):
    [B-] on the first index of a span, [I-] on its other indices, [O]
    outside every span. *)
Definition encode_spans (n : nat) (spans : list span) : list bio :=
  map (tag_at spans) (seq 0 n).

(** No dangling [I-] tag: every [I-<cat>] comes right after a [B-<cat>] or
    an [I-<cat>] of the same category. *)
Definition continues (prev t : bio) : bool :=
  match t with
  | TagI c =>
      match prev with
      | TagB c' | TagI c' => bool_decide (c' = c)
      | TagO => false
      end
  | _ => true
  end.

Fixpoint no_dangling_from (prev : bio) (ts : list bio) : bool :=
  match ts with
  | [] => true
  | t :: rest => continues prev t && no_dangling_from t rest
  end.

Definition no_dangling (ts : list bio) : bool := no_dangling_from TagO ts.

(** *** Span Matcher *)

(** Modelled from the spec: the two matching policies of
    [evaluation.evaluate_f1_partial]. *)
Inductive policy : Type := Strict | Partial.

(** Modelled from the spec: the overlap length of two spans in the Span
    Matcher of [evaluation.evaluate_f1_partial], the number of indices they
    share. *)
Definition overlap (g p : span) : nat :=
  S (Nat.min (sp_end g) (sp_end p)) - Nat.max (sp_start g) (sp_start p).

(** Modelled from the spec: when a predicted span may be paired with a gold
    span in the Span Matcher of [evaluation.evaluate_f1_partial] (section
    4.3): equal spans under the strict policy; same category and at least
    one shared index under the partial policy. *)
Definition may_match (pol : policy) (g p : span) : bool :=
  match pol with
  | Strict => bool_decide (g = p)
  | Partial => bool_decide (sp_cat g = sp_cat p) && (0 <? overlap g p)
  end.

(** Modelled from the spec: a candidate pair of the Span Matcher of
    [evaluation.evaluate_f1_partial]: a gold span and a predicted span with
    their positions in the sentence's span lists (equal spans at two
    positions are two units). *)
Definition candidate : Type := (nat * span) * (nat * span).

(** Modelled from the spec: the candidate pairs of one sentence in the Span
    Matcher of [evaluation.evaluate_f1_partial], gold spans in their order
    and, for each, predicted spans in theirs. *)
Definition candidates (pol : policy) (gold pred : list span) : list candidate :=
  flat_map (fun g => flat_map (fun p =>
      if may_match pol g.2 p.2 then [(g, p)] else [])
    (imap pair pred)) (imap pair gold).

(** Modelled from the spec: the order of the greedy choice in the Span
    Matcher of [evaluation.evaluate_f1_partial]: overlap length descending,
    then gold start ascending, then predicted start ascending. *)
Definition candidate_leb (a b : candidate) : bool :=
  let oa := overlap a.1.2 a.2.2 in
  let ob := overlap b.1.2 b.2.2 in
  if ob <? oa then true
  else if oa <? ob then false
  else if sp_start a.1.2 <? sp_start b.1.2 then true
  else if sp_start b.1.2 <? sp_start a.1.2 then false
  else sp_start a.2.2 <=? sp_start b.2.2.

(** Modelled from the spec: insertion into a sorted list of candidates, for
    the sort of the Span Matcher of [evaluation.evaluate_f1_partial]. *)
Fixpoint insert_candidate (a : candidate) (l : list candidate) : list candidate :=
  match l with
  | [] => [a]
  | b :: rest =>
      if candidate_leb a b then a :: l else b :: insert_candidate a rest
  end.

(** Modelled from the spec: the sort of the candidates in the Span Matcher
    of [evaluation.evaluate_f1_partial], a stable one. *)
Definition sort_candidates (l : list candidate) : list candidate :=
  foldr insert_candidate [] l.

(** Modelled from the spec: the greedy assignment of the Span Matcher of
    [evaluation.evaluate_f1_partial]: a pair is accepted when neither side is
    matched. *)
Fixpoint greedy (cands : list candidate) (accepted : list candidate) : list candidate :=
  match cands with
  | [] => accepted
  | c :: rest =>
      if existsb (fun a => (a.1.1 =? c.1.1) || (a.2.1 =? c.2.1)) accepted
      then greedy rest accepted
      else greedy rest (accepted ++ [c])
  end.

(** Modelled from the spec: the matched pairs of one sentence in the Span
    Matcher of [evaluation.evaluate_f1_partial]: equal pairs one to one in a
    stable order under the strict policy, the sorted greedy assignment under
    the partial policy. *)
Definition match_spans (pol : policy) (gold pred : list span) : list candidate :=
  match pol with
  | Strict => greedy (candidates Strict gold pred) []
  | Partial => greedy (sort_candidates (candidates Partial gold pred)) []
  end.

(** *** Score Aggregator *)

(** Modelled from the spec: CategoryCounts of
    [evaluation.evaluate_f1_partial], [(true_positive, false_positive,
    false_negative)]. *)
Record counts : Type := Counts {
  true_positive : nat;
  false_positive : nat;
  false_negative : nat
}.

(** Modelled from the spec: the counters of [evaluation.evaluate_f1_partial]
    before any sentence. *)
Definition counts_zero : counts := Counts 0 0 0.

(** Modelled from the spec: accumulation into the counters of
    [evaluation.evaluate_f1_partial], by integer addition. *)
Definition counts_add (a b : counts) : counts :=
  Counts (true_positive a + true_positive b)
         (false_positive a + false_positive b)
         (false_negative a + false_negative b).

(** Modelled from the spec: how many spans of category [c], at positions of
    [l], satisfy [keep], for the counts of [evaluation.evaluate_f1_partial]. *)
Definition count_cat (c : category) (keep : nat -> bool) (l : list span) : nat :=
  length (filter (fun ks => bool_decide (sp_cat ks.2 = c) && keep ks.1) (imap pair l)).

(** Modelled from the spec: what one sentence adds to the counts of category
    [c] in [evaluation.evaluate_f1_partial] (section 4.3, output): matched
    gold spans, unmatched predicted spans, unmatched gold spans. *)
Definition sentence_counts (pol : policy) (c : category) (gold pred : list span) : counts :=
  let m := match_spans pol gold pred in
  let gold_matched i := existsb (fun a => a.1.1 =? i) m in
  let pred_matched j := existsb (fun a => a.2.1 =? j) m in
  Counts (count_cat c gold_matched gold)
         (count_cat c (fun j => negb (pred_matched j)) pred)
         (count_cat c (fun i => negb (gold_matched i)) gold).

(** Modelled from the spec: the running counters of one policy in the Score
    Aggregator of [evaluation.evaluate_f1_partial] (section 4.4): one
    CategoryCounts for each category and one aggregate. *)
Record totals : Type := Totals {
  per_category : category -> counts;
  aggregate : counts
}.

(** Modelled from the spec: the counters of one policy in
    [evaluation.evaluate_f1_partial] before any sentence. *)
Definition totals_zero : totals := Totals (fun _ => counts_zero) counts_zero.

(** Modelled from the spec: the increment of the Score Aggregator of
    [evaluation.evaluate_f1_partial]: the counts of category [c], and the
    aggregate's, grow by [d]. *)
Definition bump (t : totals) (c : category) (d : counts) : totals :=
  Totals (fun c' => if bool_decide (c' = c)
                    then counts_add (per_category t c') d
                    else per_category t c')
         (counts_add (aggregate t) d).

(** Modelled from the spec: one sentence folded into the counters of a
    policy in [evaluation.evaluate_f1_partial], category by category. *)
Definition add_sentence (pol : policy) (t : totals) (gold pred : list span) : totals :=
  fold_left (fun t c => bump t c (sentence_counts pol c gold pred)) categories t.

(** Modelled from the spec: the counters of both policies in
    [evaluation.evaluate_f1_partial]. *)
Record scores : Type := Scores {
  strict : totals;
  partial : totals
}.

(** Modelled from the spec: the counters of
    [evaluation.evaluate_f1_partial] at the start of a run. *)
Definition scores_zero : scores := Scores totals_zero totals_zero.

(** Modelled from the spec: the counters of one policy of
    [evaluation.evaluate_f1_partial]. *)
Definition totals_of (pol : policy) (s : scores) : totals :=
  match pol with
  | Strict => strict s
  | Partial => partial s
  end.

(** Modelled from the spec: the quotient of the metrics of
    [evaluation.evaluate_f1_partial], [a / b], defined as [0] when [b] is
    [0]. *)
Definition ratio (a b : nat) : Q :=
  match b with
  | 0 => 0%Q
  | S _ => (Z.of_nat a # Pos.of_nat b)%Q
  end.

(** Modelled from the spec: the precision of
    [evaluation.evaluate_f1_partial] (section 4.4), on exact rationals. *)
Definition precision (c : counts) : Q :=
  ratio (true_positive c) (true_positive c + false_positive c).

(** Modelled from the spec: the recall of [evaluation.evaluate_f1_partial]
    (section 4.4), on exact rationals. *)
Definition recall (c : counts) : Q :=
  ratio (true_positive c) (true_positive c + false_negative c).

(** Modelled from the spec: the F1 of [evaluation.evaluate_f1_partial]
    (section 4.4), on exact rationals, [0] when precision and recall are
    both [0]. *)
Definition f1 (c : counts) : Q :=
  let p := precision c in
  let r := recall c in
  if Qeq_bool (p + r) 0 then 0%Q else (2 * p * r / (p + r))%Q.

(** *** Entry point *)

(** Modelled from the spec: a computation of
    [evaluation.evaluate_f1_partial] that returns or fails with one of its
    errors. *)
Definition checked (A : Type) : Type := eval_error + A.

(** Modelled from the spec: returning and sequencing in the computations
    of [evaluation.evaluate_f1_partial]; an error ends the run. *)
#[global] Instance checked_ret : MRet checked := fun _ a => inr a.
#[global] Instance checked_bind : MBind checked := fun _ _ k m =>
  match m with
  | inl e => inl e
  | inr a => k a
  end.

(** Modelled from the spec: the tags of a sentence parsed by
    [evaluation.evaluate_f1_partial], failing on the first unknown one. *)
Fixpoint parse_tags (ts : list str) : checked (list bio) :=
  match ts with
  | [] => mret []
  | t :: rest => b ← parse_tag t; bs ← parse_tags rest; mret (b :: bs)
  end.

(** Modelled from the spec: one aligned sentence of the two corpora in
    [evaluation.evaluate_f1_partial]: the token sequences must be equal, the
    tags are decoded, and the spans are matched under both policies. *)
Definition eval_sentence (i : nat) (s : scores) (gold pred : list (str * str))
  : checked scores :=
  if bool_decide (gold.*1 = pred.*1) then
    g ← parse_tags gold.*2;
    p ← parse_tags pred.*2;
    let gs := extract_spans g in
    let ps := extract_spans p in
    mret (Scores (add_sentence Strict (strict s) gs ps)
                 (add_sentence Partial (partial s) gs ps))
  else inl (TokenMismatchError i).

(** Modelled from the spec: the two corpora zipped together sentence by
    sentence in [evaluation.evaluate_f1_partial]; a corpus that ends before
    the other is a sentence count mismatch. *)
Fixpoint eval_loop (i : nat) (s : scores) (gold pred : list (list (str * str)))
  : checked scores :=
  match gold, pred with
  | [], [] => mret s
  | g :: gold', p :: pred' =>
      s' ← eval_sentence i s g p; eval_loop (S i) s' gold' pred'
  | _, _ => inl SentenceCountMismatchError
  end.

(** Modelled from the spec: the scoring of two corpora in
    [evaluation.evaluate_f1_partial]; [allow_empty] is the configuration
    that permits a corpus without sentences. *)
Definition evaluate (allow_empty : bool) (gold pred : list (list (str * str)))
  : checked scores :=
  if negb allow_empty && (bool_decide (gold = []) || bool_decide (pred = []))
  then inl EmptyCorpusError
  else eval_loop 0 scores_zero gold pred.

(** *** Report Writer *)

(** Modelled from the spec: the character of a decimal digit in the values
    of the report of [evaluation.evaluate_f1_partial]. *)
Definition digit_char (d : N) : N := (48 + d)%N.

(** Modelled from the spec: the decimal digits of [n], at most [fuel] of
    them, for the values of the report of [evaluation.evaluate_f1_partial]. *)
Fixpoint digits_of (fuel : nat) (n : N) : str :=
  match fuel with
  | 0 => []
  | S fuel' =>
      (if (n / 10 =? 0)%N then [] else digits_of fuel' (n / 10)%N)
      ++ [digit_char (n mod 10)%N]
  end.

(** Modelled from the spec: the decimal digits of a natural number in the
    report of [evaluation.evaluate_f1_partial]; a number has no more decimal
    digits than binary ones. *)
Definition decimal (n : N) : str := digits_of (S (N.size_nat n)) n.

(** Modelled from the spec: the last [k] decimal digits, zero padded, for
    the fractional part of a value of the report of
    [evaluation.evaluate_f1_partial]. *)
Fixpoint frac_digits (k : nat) (n : N) : str :=
  match k with
  | 0 => []
  | S k' => frac_digits k' (n / 10)%N ++ [digit_char (n mod 10)%N]
  end.

(** Modelled from the spec: the rounding of a value of the report of
    [evaluation.evaluate_f1_partial] to the nearest integer, ties to even. *)
Definition round_half_even (q : Q) : Z :=
  let n := Qnum q in
  let d := Zpos (Qden q) in
  let fl := (n / d)%Z in
  let r := (n mod d)%Z in
  if (2 * r <? d)%Z then fl
  else if (d <? 2 * r)%Z then (fl + 1)%Z
  else if Z.even fl then fl else (fl + 1)%Z.

(** Modelled from the spec: a value of the report of
    [evaluation.evaluate_f1_partial] "formatted to exactly six decimal
    places" (section 6), on exact rationals. *)
Definition format_6f (v : Q) : str :=
  let a := Z.abs_N (round_half_even (v * 1000000)) in
  (if (Qnum v <? 0)%Z then py "-" else [])
  ++ decimal (a / 1000000)%N ++ py "." ++ frac_digits 6 (a mod 1000000)%N.

(** Modelled from the spec: lower case of an ASCII letter, for the
    lowercased category names in the keys of the report of
    [evaluation.evaluate_f1_partial]. *)
Definition lower_char (c : N) : N :=
  if ((65 <=? c) && (c <=? 90))%N then (c + 32)%N else c.

(** Modelled from the spec: a category name lowercased for a key of the
    report of [evaluation.evaluate_f1_partial]. *)
Definition lower (s : str) : str := map lower_char s.

(** Modelled from the spec: the key of a line of the report of
    [evaluation.evaluate_f1_partial]; [None] is the average, and the strict
    policy adds [_strict]. *)
Definition report_key (c : option category) (pol : policy) : str :=
  py "f1_"
  ++ match c with
     | None => py "average"
     | Some c => lower (category_name c)
     end
  ++ match pol with
     | Strict => py "_strict"
     | Partial => []
     end.

(** Modelled from the spec: a line of the report of
    [evaluation.evaluate_f1_partial], [key: value] and a newline. *)
Definition report_line (key : str) (v : Q) : str :=
  key ++ py ": " ++ format_6f v ++ [NL].

(** Modelled from the spec: the lines of one policy in the report of
    [evaluation.evaluate_f1_partial]: the average, then the categories in
    their enumeration order. *)
Definition report_block (pol : policy) (t : totals) : str :=
  report_line (report_key None pol) (f1 (aggregate t))
  ++ concat (map (fun c => report_line (report_key (Some c) pol) (f1 (per_category t c)))
                 categories).

(** Modelled from the spec: the Report Writer of
    [evaluation.evaluate_f1_partial] (sections 4.5 and 6): the strict block,
    then the partial block. *)
Definition render_report (s : scores) : str :=
  report_block Strict (strict s) ++ report_block Partial (partial s).

(** Modelled from the spec: the entry point [main] of
    [evaluation.evaluate_f1_partial], on the two corpora as read; it returns
    the text of the report it writes, or fails without a report. *)
Definition main (allow_empty : bool) (gold pred : list (list (str * str)))
  : checked str :=
  s ← evaluate allow_empty gold pred; mret (render_report s).

(** The report that the notebook prints from [score_file] (cell 13). *)
Definition notebook_scores : str :=
  py "f1_average_strict: 0.437729" ++ [NL]
  ++ py "f1_aspect_strict: 0.128834" ++ [NL]
  ++ py "f1_object_strict: 0.354149" ++ [NL]
  ++ py "f1_predicate_strict: 0.812500" ++ [NL]
  ++ py "f1_average: 0.452591" ++ [NL]
  ++ py "f1_aspect: 0.158998" ++ [NL]
  ++ py "f1_object: 0.360194" ++ [NL]
  ++ py "f1_predicate: 0.835016" ++ [NL].

(** *** The format of a report *)

Definition is_digit (c : N) : bool := ((48 <=? c) && (c <=? 57))%N.

(** A decimal numeral, with or without a minus sign, with exactly six digits
    after the point. *)
Definition six_decimals (v : str) : bool :=
  match split 46%N v with
  | [int; frac] =>
      let int' := match int with
                  | c :: r => if (c =? 45)%N then r else int
                  | [] => int
                  end in
      negb (bool_decide (int' = [])) && forallb is_digit int'
      && (length frac =? 6) && forallb is_digit frac
  | _ => false
  end.

(** The keys of the report, in order. *)
Definition expected_keys : list str :=
  [ py "f1_average_strict"; py "f1_aspect_strict"; py "f1_object_strict";
    py "f1_predicate_strict";
    py "f1_average"; py "f1_aspect"; py "f1_object"; py "f1_predicate" ].

(** The lines of [text] are [key: value<NL>] for the expected keys in their
    order, each value with six decimal places. *)
Definition report_format (text : str) : Prop :=
  exists values : list str,
    length values = length expected_keys
    /\ Forall (fun v => six_decimals v = true) values
    /\ file_lines text
       = zip_with (fun k v => k ++ py ": " ++ v ++ [NL]) expected_keys values.

(** ** Statements about [read_dataset] *)

(** The pairs still accumulated at the end of the file are the last sentence
    of the result. *)
Definition flushed_at_eof (text : str) : Prop :=
  forall st, read_loop reader_init (file_lines text) = inr st ->
    sentence st <> [] ->
    exists d, read_dataset text = inr (d ++ [(sentence st, tags st)]).


(** The run fails with an exception of the class [MalformedLineError]. *)
Definition fails_with_MalformedLineError (text : str) : Prop :=
  exists e, read_dataset text = inl e /\ exn_name e = "MalformedLineError"%string.


(** The text is empty or ends with a newline: every line is terminated. *)
Definition complete (text : str) : Prop := text = [] \/ last text = Some NL.

(** A line that [read_dataset] cannot unpack: not blank, and not two fields. *)
Definition malformed (line : str) : Prop :=
  isspace line = false /\ length (split splitter line) <> 2.

(** No whitespace at either end. *)
Definition unpadded (s : str) : bool :=
  match s with
  | [] => true
  | c :: _ => negb (isspace_char c)
  end
  && match rev s with
     | [] => true
     | c :: _ => negb (isspace_char c)
     end.

(** What the writer can write and the reader gives back unchanged. *)
Definition clean_word (w : str) : Prop := (TAB ∉ w) /\ (NL ∉ w).

Definition clean_tag (t : str) : Prop :=
  t <> [] /\ (TAB ∉ t) /\ (NL ∉ t) /\ unpadded t = true.

Definition clean_sentence (s : list str * list str) : Prop :=
  length s.1 = length s.2 /\ Forall clean_word s.1 /\ Forall clean_tag s.2.

(** The closed set of tags. *)
Definition closed_tags : list str :=
  [ py "O"; py "B-Object"; py "I-Object"; py "B-Aspect"; py "I-Aspect";
    py "B-Predicate"; py "I-Predicate" ].

(** ** Notions used in the statements and proofs *)

Ltac by_decide := apply (bool_decide_unpack _); vm_compute; exact I.

(** The tags held by the loop have no whitespace at their ends. *)
Definition tags_unpadded (st : reader) : Prop :=
  Forall (fun s => Forall (fun t => unpadded t = true) s.2) (data st)
  /\ Forall (fun t => unpadded t = true) (tags st).

#[global] Instance clean_word_dec w : Decision (clean_word w).
Proof. unfold clean_word. apply _. Defined.

#[global] Instance clean_tag_dec t : Decision (clean_tag t).
Proof. unfold clean_tag. apply _. Defined.

#[global] Instance clean_sentence_dec s : Decision (clean_sentence s).
Proof. unfold clean_sentence. apply _. Defined.

Definition last_tag (ts : list bio) : bio := default TagO (last ts).

(** What the scan has reached after a prefix without dangling tags: the
    spans end inside the prefix, they encode it, and a span is open exactly
    when the last tag is a [B-] or an [I-], with that category and ending on
    that tag. *)
Definition scan_inv (pre : list bio) (st : list span * option span) : Prop :=
  Forall (fun s => sp_end s < length pre) (close_span st.2 st.1)
  /\ encode_spans (length pre) (close_span st.2 st.1) = pre
  /\ match last_tag pre with
     | TagB c | TagI c =>
         exists o, st.2 = Some o /\ sp_cat o = c
                   /\ S (sp_end o) = length pre /\ sp_start o <= sp_end o
     | TagO => st.2 = None
     end.





(** One token per line of a sentence, for the examples. *)
Definition tagged (l : list (string * string)) : list (str * str) :=
  map (fun wt => (py wt.1, py wt.2)) l.

Definition gold_example : list (list (str * str)) :=
  [ tagged [("advil", "B-Object"); ("works", "O"); ("for", "O");
            ("a", "B-Aspect"); ("headache", "I-Aspect")] ]%string.

Definition pred_example : list (list (str * str)) :=
  [ tagged [("advil", "B-Object"); ("works", "B-Aspect"); ("for", "O");
            ("a", "O"); ("headache", "O")] ]%string.

(** The keys and values of the report, in the order of its lines. *)
Definition report_entries (s : scores) : list (str * Q) :=
  flat_map (fun pol =>
      (report_key None pol, f1 (aggregate (totals_of pol s)))
      :: map (fun c => (report_key (Some c) pol, f1 (per_category (totals_of pol s) c)))
             categories)
    [Strict; Partial].

(** ** The vocabulary and the sequences of indices *)

(** [prepare_sequence(seq, to_ix)]: the list [[to_ix[w] for w in seq]], made
    a tensor of integers (here the list of its elements). [inl w] is the
    [KeyError] with key [w], raised at the first element that is not a key. *)
Fixpoint prepare_sequence {K V} `{Countable K} (seq : list K) (to_ix : gmap K V)
  : K + list V :=
  match seq with
  | [] => inr []
  | w :: rest =>
      match to_ix !! w with
      | None => inl w
      | Some i =>
          match prepare_sequence rest to_ix with
          | inl k => inl k
          | inr idxs => inr (i :: idxs)
          end
      end
  end.

(** The body of the loops that fill [word_to_ix]: a word that is not yet a
    key gets the index [len(word_to_ix)]. *)
Definition add_word (word_to_ix : gmap str nat) (word : str) : gmap str nat :=
  match word_to_ix !! word with
  | Some _ => word_to_ix
  | None => <[word := size word_to_ix]> word_to_ix
  end.

(** [for word in sent: ...] *)
Definition add_sentence_words (word_to_ix : gmap str nat) (sent : list str)
  : gmap str nat :=
  fold_left add_word sent word_to_ix.

(** [for sent, tags in data: for word in sent: ...] *)
Definition add_data (word_to_ix : gmap str nat) (data : list (list str * list str))
  : gmap str nat :=
  fold_left (fun m st => add_sentence_words m st.1) data word_to_ix.

(** [word_to_ix] after the two loops of cell 7, over the training data and
    then over the test data. *)
Definition word_to_ix (training_data test_data : list (list str * list str))
  : gmap str nat :=
  add_data (add_data ∅ training_data) test_data.

(** All the words of a dataset, in their order. *)
Definition words_of (data : list (list str * list str)) : list str :=
  concat data.*1.

(** A (token, tag) pair that a line [token<TAB>tag<NL>] gives back: no tab
    and no newline in either, no whitespace at the ends of the tag, and the
    line is not blank. *)
Definition readable_pair (w t : str) : Prop :=
  clean_word w /\ clean_word t /\ unpadded t = true
  /\ isspace (w ++ TAB :: t ++ [NL]) = false.

(** The pairs that the loop of [read_dataset] holds are readable, and each
    sentence has its tags in step with its words. *)
Definition reader_readable (st : reader) : Prop :=
  Forall (fun s => Forall2 readable_pair s.1 s.2) (data st)
  /\ Forall2 readable_pair (sentence st) (tags st).

(** A line that the loop of [read_dataset] accepts: blank, or two fields. *)
Definition accepted (line : str) : Prop :=
  isspace line = true \/ length (split splitter line) = 2.

(** The indices of a vocabulary are the numbers below its size, one for
    each word. *)
Definition indexing (m : gmap str nat) : Prop :=
  (forall w i, m !! w = Some i -> i < size m)
  /\ (forall w1 w2 i, m !! w1 = Some i -> m !! w2 = Some i -> w1 = w2)
  /\ (forall i, i < size m -> exists w, m !! w = Some i).

(** * Proofs *)

Example read_two_sentences :
  read_dataset (py "a" ++ [TAB] ++ py "O" ++ [NL] ++ py "b" ++ [TAB] ++ py "B-Object" ++ [NL; NL]
                ++ py "c" ++ [TAB] ++ py "O" ++ [NL; NL])
  = inr [([py "a"; py "b"], [py "O"; py "B-Object"]); ([py "c"], [py "O"])].
Proof. vm_compute. reflexivity. Qed.

Example idx3 : idx_to_tag !! 3%N = Some (py "B-Aspect").
Proof. vm_compute. reflexivity. Qed.

Example encode_dangling :
  encode_spans 3 (extract_spans [TagO; TagI Object; TagI Object])
  = [TagO; TagB Object; TagI Object].
Proof. vm_compute. reflexivity. Qed.

Example extract1 :
  extract_spans [TagO; TagB Object; TagI Object; TagI Aspect; TagO; TagI Predicate]
  = [Span Aspect 3 3; Span Predicate 5 5].
Proof. vm_compute. reflexivity. Qed.

Example fmt1 : format_6f (13 # 16) = py "0.812500" /\ format_6f (1 # 3) = py "0.333333"
  /\ format_6f (2 # 3) = py "0.666667" /\ format_6f 1 = py "1.000000"
  /\ format_6f (1 # 2000000) = py "0.000000" /\ format_6f (3 # 2000000) = py "0.000002"
  /\ format_6f (123456789 # 1000) = py "123456.789000".
Proof. vm_compute. repeat split. Qed.

(** ** Strings *)

Lemma file_lines_line (l rest : str) :
  NL ∉ l -> file_lines (l ++ NL :: rest) = (l ++ [NL]) :: file_lines rest.
Proof.
  induction l as [|c l IH]; intros Hnl.
  - reflexivity.
  - apply not_elem_of_cons in Hnl as [Hc Hl].
    cbn [app file_lines].
    destruct (N.eqb_spec c NL) as [->|_]; [done|].
    rewrite (IH Hl).
    destruct (l ++ NL :: rest) eqn:E; [by destruct l|done].
Qed.

Lemma file_lines_nonempty (text : str) : text <> [] -> file_lines text <> [].
Proof.
  destruct text as [|c r]; [done|]; intros _. cbn [file_lines].
  destruct (c =? NL)%N; [done|].
  destruct r; [done|]. by destruct (file_lines _).
Qed.

Lemma complete_cons c (r : str) : complete (c :: r) -> c <> NL -> r <> [] /\ complete r.
Proof.
  intros [H|H] Hc; [done|]. destruct r as [|c' r].
  - cbn in H. congruence.
  - split; [done|]. right. exact H.
Qed.

Lemma file_lines_snoc_newline (text : str) :
  complete text -> file_lines (text ++ [NL]) = file_lines text ++ [[NL]].
Proof.
  induction text as [|c r IH]; intros Hc; [reflexivity|].
  cbn [app file_lines].
  destruct (N.eqb_spec c NL) as [->|Hne].
  - rewrite IH; [done|]. destruct r; [by left|]. right.
    destruct Hc as [Hc|Hc]; [done|exact Hc].
  - destruct (complete_cons _ _ Hc Hne) as [Hr Hcr].
    rewrite (IH Hcr).
    pose proof (file_lines_nonempty r Hr).
    destruct r as [|c' r]; [done|]. cbn [app].
    destruct (file_lines (c' :: r)); [done|reflexivity].
Qed.

(** ** The loop of [read_dataset] *)

Lemma bind_inr {A B} (a : A) (k : A -> result B) : (inr a ≫= k) = k a.
Proof. reflexivity. Qed.

Lemma bind_mret {A B} (a : A) (k : A -> result B) : (mret a ≫= k) = k a.
Proof. reflexivity. Qed.

Lemma bind_inl {A B} (e : exn) (k : A -> result B) : (inl e ≫= k) = inl e.
Proof. reflexivity. Qed.

Lemma read_line_blank st line :
  isspace line = true ->
  read_line st line = inr (Reader (data st ++ [(sentence st, tags st)]) [] []).
Proof. intros H. unfold read_line. by rewrite H. Qed.

Lemma read_loop_app st l1 l2 :
  read_loop st (l1 ++ l2) = (read_loop st l1 ≫= fun st' => read_loop st' l2).
Proof.
  revert st; induction l1 as [|l l1 IH]; intros st; [reflexivity|].
  cbn [app read_loop]. destruct (read_line st l) as [e|st']; [reflexivity|].
  rewrite !bind_inr. apply IH.
Qed.

Lemma read_dataset_data text st :
  read_loop reader_init (file_lines text) = inr st -> read_dataset text = inr (data st).
Proof. intros H. unfold read_dataset. by rewrite H. Qed.


Lemma read_loop_snoc_blank st lines st' blank :
  read_loop st lines = inr st' -> isspace blank = true ->
  read_loop st (lines ++ [blank])
  = inr (Reader (data st' ++ [(sentence st', tags st')]) [] []).
Proof.
  intros H Hb. rewrite read_loop_app, H, bind_inr. cbn [read_loop].
  by rewrite (read_line_blank _ _ Hb).
Qed.

Lemma complete_snoc_newline (text : str) : complete (text ++ [NL]).
Proof. right. apply last_snoc. Qed.

Lemma read_dataset_inv text d :
  read_dataset text = inr d ->
  exists st, read_loop reader_init (file_lines text) = inr st /\ data st = d.
Proof.
  unfold read_dataset. destruct (read_loop _ _) as [e|st]; [discriminate|].
  rewrite bind_inr. intros [= <-]. by exists st.
Qed.

(** Every exception of the loop is the [ValueError] of the unpacking. *)
Lemma unpack2_raises fields e :
  unpack2 fields = inl e -> exists msg, e = ValueError msg.
Proof.
  destruct fields as [|a [|b [|c r]]]; cbn; intros [= <-] || intros [=]; eauto.
Qed.

Lemma unpack2_not_two fields :
  length fields <> 2 -> exists msg, unpack2 fields = inl (ValueError msg).
Proof.
  destruct fields as [|a [|b [|c r]]]; cbn; intros H; try done; eauto.
Qed.

Lemma read_line_raises st line e :
  read_line st line = inl e -> exists msg, e = ValueError msg.
Proof.
  unfold read_line. destruct (isspace line); cbn [negb]; [discriminate|].
  destruct (unpack2 _) as [e'|[w t]] eqn:E; [|discriminate].
  rewrite bind_inl. intros [= <-]. by eapply unpack2_raises.
Qed.

Lemma read_line_malformed st line :
  malformed line -> exists msg, read_line st line = inl (ValueError msg).
Proof.
  intros [Hb Hn]. unfold read_line. rewrite Hb. cbn [negb].
  destruct (unpack2_not_two _ Hn) as [msg ->]. by exists msg.
Qed.

Lemma read_loop_malformed pre line post : forall st,
  malformed line ->
  exists msg, read_loop st (pre ++ line :: post) = inl (ValueError msg).
Proof.
  induction pre as [|l pre IH]; intros st Hm; cbn [app read_loop].
  - destruct (read_line_malformed st line Hm) as [msg ->]. by exists msg.
  - destruct (read_line st l) as [e|st1] eqn:E.
    + destruct (read_line_raises _ _ _ E) as [msg ->]. by exists msg.
    + rewrite bind_inr. by apply IH.
Qed.

(** ** What [read_dataset] returns *)

(** C1, as stated, fails: a file whose only sentence is not followed by a
    blank line; the pair read is still accumulated at the end of the file
    and the result is empty. *)
Lemma last_sentence_not_flushed :
  ~ flushed_at_eof (py "a" ++ [TAB] ++ py "O" ++ [NL]).
Proof.
  intros H.
  destruct (H (Reader [] [py "a"] [py "O"])) as [d Hd].
  - vm_compute. reflexivity.
  - discriminate.
  - vm_compute in Hd. injection Hd as Hd. by destruct d.
Qed.

(** C1 (amended): [read_dataset] returns the sentences that a blank line
    follows. The pairs accumulated after the last blank line are not part of
    the result at the end of the file; once the file continues with a blank
    line they are its last sentence. *)
Theorem read_dataset_returns_terminated_sentences (text : str) (st : reader) :
  read_loop reader_init (file_lines text) = inr st ->
  read_dataset text = inr (data st)
  /\ (complete text ->
      read_dataset (text ++ [NL]) = inr (data st ++ [(sentence st, tags st)])).
Proof.
  intros H. split; [by apply read_dataset_data|].
  intros Hc. unfold read_dataset.
  rewrite (file_lines_snoc_newline _ Hc).
  by rewrite (read_loop_snoc_blank _ _ _ [NL] H).
Qed.

Lemma read_dataset_returns_terminated_sentences_witness :
  read_dataset (py "a" ++ [TAB] ++ py "O" ++ [NL]) = inr []
  /\ read_dataset ((py "a" ++ [TAB] ++ py "O" ++ [NL]) ++ [NL])
     = inr [([py "a"], [py "O"])].
Proof.
  destruct (read_dataset_returns_terminated_sentences
              (py "a" ++ [TAB] ++ py "O" ++ [NL]) (Reader [] [py "a"] [py "O"]))
    as [H1 H2].
  - vm_compute. reflexivity.
  - split; [exact H1|]. apply H2. right. reflexivity.
Defined.




(** C6, as stated, fails: a line without a tab is malformed, and the
    exception of the run is not of a class [MalformedLineError]. *)
Lemma malformed_line_error_class :
  malformed (py "a" ++ [NL])
  /\ ~ fails_with_MalformedLineError (py "a" ++ [NL]).
Proof.
  split.
  - split; [reflexivity|]. vm_compute. lia.
  - intros (e & He & Hn). vm_compute in He. injection He as <-.
    cbn in Hn. discriminate.
Qed.

(** C6 (amended): when a line of the file is not blank and does not split
    into exactly two tab-delimited fields, [read_dataset] raises Python's
    [ValueError] (from the unpacking into [word, tag]) and returns no data:
    the line is not skipped and there is no partial result. *)
Theorem read_dataset_malformed_line (text line : str) :
  line ∈ file_lines text -> malformed line ->
  exists msg, read_dataset text = inl (ValueError msg).
Proof.
  intros Hin Hm. apply list_elem_of_split in Hin as (pre & post & Hsplit).
  unfold read_dataset. rewrite Hsplit.
  destruct (read_loop_malformed pre line post reader_init Hm) as [msg ->].
  by exists msg.
Qed.

Lemma read_dataset_malformed_line_witness :
  exists msg,
    read_dataset (py "a" ++ [TAB] ++ py "O" ++ [NL] ++ py "b" ++ [TAB] ++ py "c"
                  ++ [TAB] ++ py "O" ++ [NL; NL])
    = inl (ValueError msg).
Proof.
  apply (read_dataset_malformed_line _ (py "b" ++ [TAB] ++ py "c" ++ [TAB] ++ py "O" ++ [NL])).
  - vm_compute. apply list_elem_of_further, list_elem_of_here.
  - split; [reflexivity|]. vm_compute. lia.
Defined.

(** ** [split] and [strip] *)

Lemma split_no_sep sep (s : str) : sep ∉ s -> split sep s = [s].
Proof.
  induction s as [|c s IH]; intros H; [reflexivity|].
  apply not_elem_of_cons in H as [Hc Hs]. cbn [split].
  destruct (N.eqb_spec c sep) as [->|_]; [done|]. by rewrite (IH Hs).
Qed.

Lemma split_first sep (w r : str) :
  sep ∉ w -> split sep (w ++ sep :: r) = w :: split sep r.
Proof.
  induction w as [|c w IH]; intros H.
  - cbn. by rewrite N.eqb_refl.
  - apply not_elem_of_cons in H as [Hc Hw]. cbn [app split].
    destruct (N.eqb_spec c sep) as [->|_]; [done|]. by rewrite (IH Hw).
Qed.

Lemma lstrip_head (s : str) :
  match lstrip s with
  | [] => True
  | c :: _ => isspace_char c = false
  end.
Proof.
  induction s as [|c s IH]; [done|]. cbn [lstrip].
  by destruct (isspace_char c) eqn:E.
Qed.

Lemma lstrip_suffix (s : str) : exists pre, s = pre ++ lstrip s.
Proof.
  induction s as [|c s [pre IH]]; [by exists []|]. cbn [lstrip].
  destruct (isspace_char c).
  - exists (c :: pre). cbn. by rewrite <- IH.
  - by exists [].
Qed.

Lemma lstrip_app (s x : str) :
  lstrip (s ++ x) = match lstrip s with
                    | [] => lstrip x
                    | _ => lstrip s ++ x
                    end.
Proof.
  induction s as [|c s IH]; [reflexivity|]. cbn [app lstrip].
  by destruct (isspace_char c).
Qed.

Lemma lstrip_id c (s : str) : isspace_char c = false -> lstrip (c :: s) = c :: s.
Proof. intros H. cbn. by rewrite H. Qed.

Lemma strip_newline (tag : str) : strip (tag ++ [NL]) = strip tag.
Proof.
  unfold strip, rstrip. rewrite lstrip_app.
  destruct (lstrip tag) as [|c r] eqn:E; [reflexivity|].
  rewrite rev_app_distr. reflexivity.
Qed.

Lemma unpadded_strip (s : str) : unpadded (strip s) = true.
Proof.
  unfold strip, rstrip, unpadded. rewrite rev_involutive.
  set (a := lstrip s). set (b := lstrip (rev a)).
  apply andb_true_intro. split.
  - destruct (lstrip_suffix (rev a)) as [pre Hpre]. fold b in Hpre.
    apply (f_equal (@rev N)) in Hpre.
    rewrite rev_involutive, rev_app_distr in Hpre.
    destruct (rev b) as [|c r]; [done|].
    pose proof (lstrip_head s) as Hh. fold a in Hh. rewrite Hpre in Hh.
    cbn in Hh. by rewrite Hh.
  - pose proof (lstrip_head (rev a)) as Hh. fold b in Hh.
    destruct b; [done|]. by rewrite Hh.
Qed.

Lemma unpadded_strip_id (t : str) : unpadded t = true -> strip t = t.
Proof.
  unfold unpadded, strip, rstrip. intros H.
  apply andb_prop in H as [H1 H2].
  destruct t as [|c r]; [reflexivity|].
  apply negb_true_iff in H1. rewrite (lstrip_id _ _ H1).
  destruct (rev (c :: r)) as [|c' r'] eqn:E.
  - apply (f_equal (@rev N)) in E. by rewrite rev_involutive in E.
  - apply negb_true_iff in H2. rewrite (lstrip_id _ _ H2), <- E.
    apply rev_involutive.
Qed.

Lemma read_line_pair st (word rest : str) :
  TAB ∉ word -> TAB ∉ rest -> isspace (word ++ TAB :: rest) = false ->
  read_line st (word ++ TAB :: rest)
  = inr (Reader (data st) (sentence st ++ [word]) (tags st ++ [strip rest])).
Proof.
  intros Hw Hr Hb. unfold read_line. rewrite Hb. cbn [negb].
  unfold splitter. by rewrite (split_first _ _ _ Hw), (split_no_sep _ _ Hr).
Qed.

Lemma read_line_tags_unpadded st line st' :
  tags_unpadded st -> read_line st line = inr st' -> tags_unpadded st'.
Proof.
  intros [Hd Ht]. unfold read_line. destruct (isspace line); cbn [negb].
  - intros [= <-]. split; [|apply Forall_nil_2]. cbn [data].
    apply Forall_app. split; [exact Hd|].
    apply Forall_cons. split; [exact Ht|apply Forall_nil_2].
  - destruct (unpack2 (split splitter line)) as [e|[w t]]; [discriminate|].
    intros [= <-]. split; [exact Hd|]. cbn [tags].
    apply Forall_app. split; [exact Ht|].
    apply Forall_cons. split; [apply unpadded_strip|apply Forall_nil_2].
Qed.

Lemma read_loop_tags_unpadded lines : forall st st',
  tags_unpadded st -> read_loop st lines = inr st' -> tags_unpadded st'.
Proof.
  induction lines as [|l ls IH]; intros st st' Hst; cbn [read_loop].
  - by intros [= <-].
  - destruct (read_line st l) as [e|st1] eqn:E; [discriminate|].
    rewrite bind_inr. apply IH. by eapply read_line_tags_unpadded.
Qed.

(** C10: on a line [word<TAB>rest] with one tab the loop keeps [word] as it
    is and stores [rest] stripped; a newline at the end of [rest] is stripped
    with the rest of the whitespace; and no tag of the result of
    [read_dataset] has whitespace at either end. *)
Theorem read_dataset_strips_tag :
  (forall (st : reader) (word rest : str),
      TAB ∉ word -> TAB ∉ rest -> isspace (word ++ TAB :: rest) = false ->
      read_line st (word ++ TAB :: rest)
      = inr (Reader (data st) (sentence st ++ [word]) (tags st ++ [strip rest]))
      /\ strip (rest ++ [NL]) = strip rest
      /\ unpadded (strip rest) = true)
  /\ (forall (text : str) (d : list (list str * list str)),
        read_dataset text = inr d ->
        Forall (fun s => Forall (fun t => unpadded t = true) s.2) d).
Proof.
  split.
  - intros st word rest Hw Hr Hb. split; [by apply read_line_pair|].
    split; [apply strip_newline|apply unpadded_strip].
  - intros text d H. destruct (read_dataset_inv _ _ H) as (st & Hst & <-).
    eapply (read_loop_tags_unpadded _ reader_init st); [|exact Hst].
    split; apply Forall_nil_2.
Qed.

Lemma read_dataset_strips_tag_witness :
  (read_line reader_init (py "a b" ++ TAB :: (py " O " ++ [NL]))
   = inr (Reader (data reader_init) (sentence reader_init ++ [py "a b"])
                 (tags reader_init ++ [strip (py " O " ++ [NL])]))
   /\ strip ((py " O " ++ [NL]) ++ [NL]) = strip (py " O " ++ [NL])
   /\ unpadded (strip (py " O " ++ [NL])) = true)
  /\ Forall (fun s : list str * list str => Forall (fun t => unpadded t = true) s.2)
            [([py "a b"], [py "O"])].
Proof.
  split.
  - apply (proj1 read_dataset_strips_tag reader_init (py "a b") (py " O " ++ [NL])).
    + by_decide.
    + by_decide.
    + reflexivity.
  - apply (proj2 read_dataset_strips_tag (py "a b" ++ TAB :: (py " O " ++ [NL; NL]))).
    vm_compute. reflexivity.
Defined.

(** ** The writer, read back *)

Lemma isspace_nonspace (a : str) c (b : str) :
  isspace_char c = false -> isspace (a ++ c :: b) = false.
Proof.
  intros Hc. unfold isspace.
  assert (forallb isspace_char (a ++ c :: b) = false) as ->.
  { induction a as [|x a IH]; cbn; [by rewrite Hc|]. rewrite IH. apply andb_false_r. }
  by destruct (a ++ c :: b).
Qed.









(** ** The tag dictionaries and the tags written *)


Lemma idx_to_tag_items :
  map_to_list idx_to_tag
  ≡ₚ [ (0%N, py "O"); (1%N, py "B-Object"); (2%N, py "I-Object");
       (3%N, py "B-Aspect"); (4%N, py "I-Aspect"); (5%N, py "B-Predicate");
       (6%N, py "I-Predicate") ].
Proof. vm_compute. by_decide. Qed.

Lemma idx_to_tag_lookup i t :
  idx_to_tag !! i = Some t -> t ∈ closed_tags /\ tag_to_ix !! t = Some i.
Proof.
  intros H. apply elem_of_map_to_list in H. rewrite idx_to_tag_items in H.
  repeat (apply elem_of_cons in H as [[= -> ->]|H];
          [split; [by_decide|vm_compute; reflexivity]|]).
  by apply elem_of_nil in H.
Qed.

Lemma tag_to_ix_lookup t :
  t ∈ closed_tags -> exists i, tag_to_ix !! t = Some i /\ idx_to_tag !! i = Some t.
Proof.
  intros H. unfold closed_tags in H.
  repeat (apply elem_of_cons in H as [->|H];
          [eexists; split; vm_compute; reflexivity|]).
  by apply elem_of_nil in H.
Qed.

Lemma lookup_tags_closed idxs : forall ts,
  lookup_tags idxs = inr ts -> Forall (fun t => t ∈ closed_tags) ts.
Proof.
  induction idxs as [|i idxs IH]; intros ts; cbn [lookup_tags].
  - intros [= <-]. apply Forall_nil_2.
  - unfold getitem. destruct (idx_to_tag !! i) as [t|] eqn:E; [|discriminate].
    rewrite bind_mret. destruct (lookup_tags idxs) as [e|ts']; [discriminate|].
    rewrite bind_inr. intros [= <-]. apply Forall_cons. split.
    + by apply (idx_to_tag_lookup i t).
    + by apply IH.
Qed.

Lemma write_sentences_app (a b : list (list str * list str)) :
  write_sentences (a ++ b) = write_sentences a ++ write_sentences b.
Proof. unfold write_sentences. by rewrite map_app, concat_app. Qed.

Lemma write_loop_spec tagger test_data : forall w text,
  write_loop tagger w test_data = inr text ->
  exists preds,
    text = w ++ write_sentences preds
    /\ preds.*1 = test_data.*1
    /\ Forall (fun p => Forall (fun t => t ∈ closed_tags) p.2) preds.
Proof.
  induction test_data as [|s rest IH]; intros w text; cbn [write_loop].
  - intros [= <-]. exists []. cbn. rewrite app_nil_r. by repeat split.
  - destruct (lookup_tags (tagger s.1)) as [e|ts] eqn:E; [discriminate|].
    rewrite bind_inr. intros H. apply IH in H as (preds & -> & Hw & Hc).
    exists ((s.1, ts) :: preds). split; [|split].
    + change ((s.1, ts) :: preds) with ([(s.1, ts)] ++ preds).
      rewrite write_sentences_app, <- app_assoc. unfold write_sentences at 2.
      cbn [map concat fst snd]. by rewrite app_nil_r.
    + cbn. by rewrite Hw.
    + apply Forall_cons. split; [|exact Hc]. by apply (lookup_tags_closed _ _ E).
Qed.

(** C9: [idx_to_tag] inverts [tag_to_ix] on the seven tags, it holds nothing
    else, and every tag that the inference loop writes to the predicted file
    is one of the seven. *)
Theorem idx_to_tag_inverts_tag_to_ix :
  (forall t, t ∈ closed_tags ->
             exists i, tag_to_ix !! t = Some i /\ idx_to_tag !! i = Some t)
  /\ (forall i t, idx_to_tag !! i = Some t ->
                  t ∈ closed_tags /\ tag_to_ix !! t = Some i)
  /\ (forall tagger test_data text,
        write_test_file tagger test_data = inr text ->
        exists preds,
          text = write_sentences preds
          /\ preds.*1 = test_data.*1
          /\ Forall (fun p => Forall (fun t => t ∈ closed_tags) p.2) preds).
Proof.
  split; [exact tag_to_ix_lookup|]. split; [exact idx_to_tag_lookup|].
  intros tagger test_data text H. by apply (write_loop_spec tagger test_data []).
Qed.

Lemma idx_to_tag_inverts_tag_to_ix_witness :
  (exists i, tag_to_ix !! py "B-Aspect" = Some i /\ idx_to_tag !! i = Some (py "B-Aspect"))
  /\ (py "I-Object" ∈ closed_tags /\ tag_to_ix !! py "I-Object" = Some 2%N)
  /\ (exists preds,
        py "advil" ++ [TAB] ++ py "B-Object" ++ [NL; NL] = write_sentences preds
        /\ preds.*1 = [([py "advil"], [py "O"])].*1
        /\ Forall (fun p : list str * list str => Forall (fun t => t ∈ closed_tags) p.2) preds).
Proof.
  destruct idx_to_tag_inverts_tag_to_ix as (H1 & H2 & H3).
  split; [|split].
  - apply H1. by_decide.
  - apply H2. vm_compute. reflexivity.
  - apply (H3 (fun ws => map (fun _ => 1%N) ws) [([py "advil"], [py "O"])]).
    vm_compute. reflexivity.
Defined.

(** ** The Span Extractor *)

Lemma scan_app (a b : list bio) : forall i st,
  scan i st (a ++ b) = scan (i + length a) (scan i st a) b.
Proof.
  induction a as [|t a IH]; intros i st; cbn [app scan length].
  - by rewrite Nat.add_0_r.
  - rewrite IH. f_equal. lia.
Qed.

Lemma scan_snoc (pre : list bio) (t : bio) st :
  scan 0 st (pre ++ [t]) = scan_tag (length pre) (scan 0 st pre) t.
Proof. by rewrite scan_app. Qed.





(** ** Decoding and re-encoding *)

Lemma encode_spans_S n spans :
  encode_spans (S n) spans = encode_spans n spans ++ [tag_at spans n].
Proof. unfold encode_spans. by rewrite seq_S, map_app. Qed.

Lemma encode_spans_ext n (a b : list span) :
  (forall i, i < n -> tag_at a i = tag_at b i) ->
  encode_spans n a = encode_spans n b.
Proof.
  intros H. unfold encode_spans. apply map_ext_in. intros i Hi.
  apply in_seq in Hi. apply H. lia.
Qed.

Lemma find_covers_none (spans : list span) (i : nat) :
  Forall (fun s => sp_end s < i) spans -> find (covers i) spans = None.
Proof.
  induction 1 as [|s l Hs Hl IH]; [reflexivity|]. cbn [find].
  unfold covers at 1. replace (i <=? sp_end s) with false; [|symmetry; apply Nat.leb_gt; lia].
  by rewrite andb_false_r.
Qed.

Lemma find_snoc (spans : list span) (x : span) (i : nat) :
  find (covers i) (spans ++ [x])
  = match find (covers i) spans with
    | Some s => Some s
    | None => if covers i x then Some x else None
    end.
Proof.
  induction spans as [|s l IH]; cbn [app find]; [reflexivity|].
  by destruct (covers i s).
Qed.

Lemma tag_at_snoc (spans : list span) (x : span) (i : nat) :
  tag_at (spans ++ [x]) i
  = match find (covers i) spans with
    | Some _ => tag_at spans i
    | None => if covers i x
              then if i =? sp_start x then TagB (sp_cat x) else TagI (sp_cat x)
              else TagO
    end.
Proof.
  unfold tag_at. rewrite find_snoc.
  destruct (find (covers i) spans); [reflexivity|]. by destruct (covers i x).
Qed.

(** Appending a span that lies at or after [n] changes no tag before [n]. *)
Lemma tag_at_snoc_before (spans : list span) (x : span) (n i : nat) :
  i < n -> n <= sp_start x -> tag_at (spans ++ [x]) i = tag_at spans i.
Proof.
  intros Hi Hx. rewrite tag_at_snoc.
  destruct (find (covers i) spans) eqn:E; [reflexivity|].
  unfold covers. replace (sp_start x <=? i) with false; [|symmetry; apply Nat.leb_gt; lia].
  cbn. unfold tag_at. by rewrite E.
Qed.

(** Moving the end of the last span from [n - 1] to [n] changes no tag
    before [n]. *)
Lemma tag_at_extend (spans : list span) c (st n i : nat) :
  i < S n ->
  tag_at (spans ++ [Span c st (S n)]) i = tag_at (spans ++ [Span c st n]) i.
Proof.
  intros Hi. rewrite !tag_at_snoc.
  destruct (find (covers i) spans); [reflexivity|].
  unfold covers. cbn [sp_start sp_end sp_cat].
  replace (i <=? S n) with true; [|symmetry; apply Nat.leb_le; lia].
  replace (i <=? n) with true; [|symmetry; apply Nat.leb_le; lia].
  reflexivity.
Qed.

Lemma no_dangling_from_snoc (ts : list bio) (t : bio) : forall prev,
  no_dangling_from prev (ts ++ [t])
  = no_dangling_from prev ts && continues (default prev (last ts)) t.
Proof.
  induction ts as [|x ts IH]; intros prev; cbn [app no_dangling_from].
  - rewrite andb_true_r. reflexivity.
  - rewrite IH, andb_assoc. do 2 f_equal.
    destruct ts as [|y ts]; [reflexivity|].
    change (last (x :: y :: ts)) with (last (y :: ts)).
    destruct (proj2 (last_is_Some (y :: ts))) as [z ->]; done.
Qed.

Lemma last_tag_snoc (pre : list bio) (t : bio) : last_tag (pre ++ [t]) = t.
Proof. unfold last_tag. by rewrite last_snoc. Qed.

Lemma Forall_end_lt_S (spans : list span) n :
  Forall (fun s => sp_end s < n) spans -> Forall (fun s => sp_end s < S n) spans.
Proof. intros H. eapply Forall_impl; [exact H|]. intros s. cbn. lia. Qed.

Lemma scan_inv_step (pre : list bio) (t : bio) st :
  scan_inv pre st -> continues (last_tag pre) t = true ->
  scan_inv (pre ++ [t]) (scan_tag (length pre) st t).
Proof.
  destruct st as [em op]. intros (Hend & Henc & Hopen) Hcont.
  cbn [fst snd] in *. unfold scan_inv.
  rewrite last_tag_snoc, length_app, Nat.add_1_r. cbn [length].
  set (n := length pre) in *.
  destruct t as [|c|c]; cbn [scan_tag fst snd close_span].
  - (* O *)
    split; [by apply Forall_end_lt_S|]. split; [|reflexivity].
    rewrite encode_spans_S, Henc. f_equal. unfold tag_at.
    by rewrite (find_covers_none _ _ Hend).
  - (* B-c *)
    split; [|split].
    + apply Forall_app. split; [by apply Forall_end_lt_S|].
      apply Forall_cons. split; [cbn; lia|apply Forall_nil_2].
    + rewrite encode_spans_S.
      rewrite (encode_spans_ext n _ (close_span op em)).
      * rewrite Henc. f_equal. rewrite tag_at_snoc, (find_covers_none _ _ Hend).
        unfold covers. cbn [sp_start sp_end sp_cat].
        by rewrite Nat.leb_refl, Nat.eqb_refl.
      * intros i Hi. by apply (tag_at_snoc_before _ _ n).
    + exists (Span c n n). cbn. repeat split; lia.
  - (* I-c, not dangling *)
    assert (exists o, op = Some o /\ sp_cat o = c
                      /\ S (sp_end o) = n /\ sp_start o <= sp_end o)
      as (o & -> & Hcat & Hoe & Hos).
    { cbn [continues] in Hcont. destruct (last_tag pre) as [|c'|c']; [done| |];
        apply bool_decide_eq_true_1 in Hcont; subst c';
        destruct Hopen as (o & ? & ? & ? & ?); by exists o. }
    rewrite bool_decide_eq_true_2 by exact Hcat. cbn [fst snd close_span] in *.
    destruct o as [oc os oe]. cbn [sp_cat sp_start sp_end] in *. subst oc.
    apply Forall_app in Hend as [Hem Ho].
    split; [|split].
    + apply Forall_app. split; [by apply Forall_end_lt_S|].
      apply Forall_cons. split; [cbn; lia|apply Forall_nil_2].
    + rewrite encode_spans_S.
      rewrite (encode_spans_ext n _ (em ++ [Span c os oe])).
      * rewrite Henc. f_equal. rewrite tag_at_snoc, (find_covers_none _ _ Hem).
        unfold covers. cbn [sp_start sp_end sp_cat].
        replace (os <=? n) with true; [|symmetry; apply Nat.leb_le; lia].
        rewrite Nat.leb_refl. cbn [andb].
        replace (n =? os) with false; [reflexivity|symmetry; apply Nat.eqb_neq; lia].
      * intros i Hi. subst n. rewrite <- Hoe. apply tag_at_extend. lia.
    + exists (Span c os n). cbn. repeat split; lia.
Qed.

Lemma scan_inv_holds (ts : list bio) :
  no_dangling ts = true -> scan_inv ts (scan 0 ([], None) ts).
Proof.
  induction ts as [|t pre IH] using rev_ind; intros Hnd.
  - repeat split. apply Forall_nil_2.
  - unfold no_dangling in Hnd. rewrite no_dangling_from_snoc in Hnd.
    apply andb_prop in Hnd as [Hpre Hc].
    rewrite scan_snoc. apply scan_inv_step; [by apply IH|exact Hc].
Qed.

(** C7: on a tag sequence without a dangling [I-] tag, encoding the spans
    that the Span Extractor decodes gives the sequence back. *)
Theorem encode_extract_spans (ts : list bio) :
  no_dangling ts = true ->
  encode_spans (length ts) (extract_spans ts) = ts.
Proof.
  intros Hnd. destruct (scan_inv_holds ts Hnd) as (_ & Henc & _).
  unfold extract_spans. by destruct (scan 0 ([], None) ts).
Qed.

Lemma encode_extract_spans_witness :
  encode_spans (length [TagO; TagB Object; TagI Object; TagB Aspect; TagB Aspect; TagO; TagB Predicate])
    (extract_spans [TagO; TagB Object; TagI Object; TagB Aspect; TagB Aspect; TagO; TagB Predicate])
  = [TagO; TagB Object; TagI Object; TagB Aspect; TagB Aspect; TagO; TagB Predicate].
Proof.
  apply (encode_extract_spans
           [TagO; TagB Object; TagI Object; TagB Aspect; TagB Aspect; TagO; TagB Predicate]).
  reflexivity.
Defined.

(** ** The Score Aggregator *)





Lemma checked_bind_inr {A B} (m : checked A) (k : A -> checked B) b :
  (m ≫= k) = inr b -> exists a, m = inr a /\ k a = inr b.
Proof. destruct m as [e|a]; [discriminate|]. intros H. by exists a. Qed.






Example partial_greedy_tie :
  match_spans Partial [Span Aspect 0 3; Span Aspect 5 6] [Span Aspect 3 5]
  = [((0, Span Aspect 0 3), (0, Span Aspect 3 5))]
  /\ sentence_counts Partial Aspect [Span Aspect 0 3; Span Aspect 5 6] [Span Aspect 3 5]
     = Counts 1 0 1.
Proof. vm_compute. split; reflexivity. Qed.

Example partial_longest_overlap_first :
  match_spans Partial [Span Object 0 1; Span Object 2 6] [Span Object 1 5]
  = [((1, Span Object 2 6), (0, Span Object 1 5))].
Proof. vm_compute. reflexivity. Qed.

Example evaluate_errors :
  evaluate false [tagged [("a", "O")%string]] [] = inl EmptyCorpusError
  /\ evaluate true [tagged [("a", "O")%string]] [] = inl SentenceCountMismatchError
  /\ evaluate false [tagged [("a", "O")%string]] [tagged [("b", "O")%string]] = inl (TokenMismatchError 0)
  /\ evaluate false [tagged [("a", "X")%string]] [tagged [("a", "O")%string]]
     = inl (UnknownTagError (py "X")).
Proof. vm_compute. repeat split. Qed.

Example scenario_strict :
  sentence_counts Strict Aspect [Span Aspect 2 3] [Span Aspect 2 2] = Counts 0 1 1
  /\ sentence_counts Partial Aspect [Span Aspect 2 3] [Span Aspect 2 2] = Counts 1 0 0
  /\ sentence_counts Strict Object [Span Object 6 6] [Span Object 6 6] = Counts 1 0 0.
Proof. vm_compute. repeat split. Qed.


(** ** The Report Writer *)

Lemma is_digit_digit_char n : is_digit (digit_char (n mod 10)%N) = true.
Proof.
  unfold is_digit, digit_char.
  assert (n mod 10 < 10)%N as H by (apply N.mod_lt; discriminate).
  revert H. generalize (n mod 10)%N. intros d H.
  apply andb_true_intro. split; apply N.leb_le; lia.
Qed.

Lemma digits_of_digits fuel : forall n, forallb is_digit (digits_of fuel n) = true.
Proof.
  induction fuel as [|fuel IH]; intros n; [reflexivity|]. cbn [digits_of].
  rewrite forallb_app. cbn [forallb]. rewrite is_digit_digit_char.
  destruct (n / 10 =? 0)%N; [reflexivity|]. by rewrite IH.
Qed.

Lemma decimal_nonempty n : decimal n <> [].
Proof. unfold decimal. cbn [digits_of]. by destruct (if (_ =? _)%N then _ else _). Qed.

Lemma frac_digits_digits k : forall n, forallb is_digit (frac_digits k n) = true.
Proof.
  induction k as [|k IH]; intros n; [reflexivity|]. cbn [frac_digits].
  rewrite forallb_app, IH. cbn [forallb]. by rewrite is_digit_digit_char.
Qed.

Lemma frac_digits_length k : forall n, length (frac_digits k n) = k.
Proof.
  induction k as [|k IH]; intros n; [reflexivity|]. cbn [frac_digits].
  rewrite length_app, IH. cbn. lia.
Qed.

Lemma digits_not_elem c (l : str) :
  is_digit c = false -> forallb is_digit l = true -> c ∉ l.
Proof.
  intros Hc Hl Hin. induction l as [|x l IH]; [by apply elem_of_nil in Hin|].
  cbn [forallb] in Hl. apply andb_prop in Hl as [Hx Hl].
  apply elem_of_cons in Hin as [->|Hin]; [congruence|by apply IH].
Qed.

(** The text of a formatted value: a sign or nothing, digits, a point, six
    digits. *)
Lemma format_6f_shape v :
  exists sign int frac,
    format_6f v = sign ++ int ++ [46%N] ++ frac
    /\ (sign = [] \/ sign = [45%N])
    /\ int <> [] /\ forallb is_digit int = true
    /\ length frac = 6 /\ forallb is_digit frac = true.
Proof.
  unfold format_6f.
  set (a := Z.abs_N _).
  exists (if (Qnum v <? 0)%Z then py "-" else []), (decimal (a / 1000000)%N),
    (frac_digits 6 (a mod 1000000)%N).
  split; [reflexivity|]. split; [destruct (Qnum v <? 0)%Z; [by right|by left]|].
  split; [apply decimal_nonempty|]. split; [apply digits_of_digits|].
  split; [apply frac_digits_length|apply frac_digits_digits].
Qed.

Lemma six_decimals_format v : six_decimals (format_6f v) = true.
Proof.
  destruct (format_6f_shape v) as (sign & int & frac & -> & Hs & Hne & Hi & Hl & Hf).
  unfold six_decimals. rewrite app_assoc. cbn [app].
  rewrite split_first, split_no_sep.
  - destruct int as [|d int]; [done|].
    assert ((d =? 45)%N = false) as Hd.
    { cbn [forallb] in Hi. apply andb_prop in Hi as [Hi _].
      apply N.eqb_neq. intros ->. discriminate. }
    destruct Hs as [-> | ->]; cbn [app].
    + rewrite Hd, Hi, Hl, Hf. by rewrite bool_decide_eq_false_2.
    + rewrite N.eqb_refl, Hi, Hl, Hf. by rewrite bool_decide_eq_false_2.
  - by apply digits_not_elem.
  - rewrite not_elem_of_app. split; [|by apply digits_not_elem].
    destruct Hs as [-> | ->]; [apply not_elem_of_nil|].
    intros H. apply list_elem_of_singleton in H. discriminate.
Qed.

Lemma format_6f_no_newline v : NL ∉ format_6f v.
Proof.
  destruct (format_6f_shape v) as (sign & int & frac & -> & Hs & Hne & Hi & Hl & Hf).
  rewrite !not_elem_of_app. split; [|split; [|split]].
  - destruct Hs as [-> | ->]; [apply not_elem_of_nil|].
    intros H. apply list_elem_of_singleton in H. discriminate.
  - by apply digits_not_elem.
  - intros H. apply list_elem_of_singleton in H. discriminate.
  - by apply digits_not_elem.
Qed.

Lemma render_report_entries s :
  render_report s = concat (map (fun kv => report_line kv.1 kv.2) (report_entries s)).
Proof.
  unfold render_report, report_block, report_entries.
  cbn [flat_map map concat categories app totals_of fst snd].
  by rewrite <- !app_assoc, !app_nil_r.
Qed.

Lemma file_lines_report (entries : list (str * Q)) :
  Forall (fun kv => NL ∉ kv.1) entries ->
  file_lines (concat (map (fun kv => report_line kv.1 kv.2) entries))
  = map (fun kv => report_line kv.1 kv.2) entries.
Proof.
  induction 1 as [|[k v] l Hk Hl IH]; [reflexivity|].
  cbn [map concat fst snd]. unfold report_line at 1.
  replace ((k ++ py ": " ++ format_6f v ++ [NL]) ++ _)
    with ((k ++ py ": " ++ format_6f v) ++ NL :: concat (map (fun kv => report_line kv.1 kv.2) l))
    by (by rewrite <- !app_assoc).
  rewrite file_lines_line, IH.
  - unfold report_line. by rewrite <- !app_assoc.
  - rewrite !not_elem_of_app. split; [exact Hk|]. split; [by_decide|].
    apply format_6f_no_newline.
Qed.

Lemma render_report_format s : report_format (render_report s).
Proof.
  exists (map (fun kv => format_6f kv.2) (report_entries s)).
  split; [reflexivity|]. split.
  - apply Forall_map, Forall_forall. intros kv _. apply six_decimals_format.
  - rewrite render_report_entries, file_lines_report; [reflexivity|].
    unfold report_entries. cbn [flat_map map categories app fst].
    repeat (apply Forall_cons; split; [by_decide|]). apply Forall_nil_2.
Qed.

(** The report printed in the notebook has the format. *)
Lemma notebook_scores_format : report_format notebook_scores.
Proof.
  exists [py "0.437729"; py "0.128834"; py "0.354149"; py "0.812500";
          py "0.452591"; py "0.158998"; py "0.360194"; py "0.835016"].
  split; [reflexivity|]. split; [by_decide|]. vm_compute. reflexivity.
Qed.

(** C5: the report that the entry point writes has exactly these lines, in
    this order: [f1_average_strict], [f1_<category>_strict] for the
    categories in their enumeration order (lower case), [f1_average],
    [f1_<category>] in the same order; each line is [key: value] and a
    newline, the value with exactly six decimal places. *)
Theorem main_report_format (allow_empty : bool) (gold pred : list (list (str * str)))
    (text : str) :
  main allow_empty gold pred = inr text -> report_format text.
Proof.
  unfold main. intros H. apply checked_bind_inr in H as (s & _ & [= <-]).
  apply render_report_format.
Qed.

Lemma main_report_format_witness :
  exists text, main false gold_example pred_example = inr text /\ report_format text.
Proof.
  eexists. split; [vm_compute; reflexivity|].
  apply (main_report_format false gold_example pred_example).
  vm_compute. reflexivity.
Defined.

(** ** The notebook's own run: test data read, tagged, written, read back *)

Lemma split_head_no_sep sep (s : str) : forall f fs,
  split sep s = f :: fs -> sep ∉ f.
Proof.
  induction s as [|c s IH]; intros f fs; cbn [split].
  - intros [= <- <-]. apply not_elem_of_nil.
  - destruct (N.eqb_spec c sep) as [->|Hne].
    + intros [= <- <-]. apply not_elem_of_nil.
    + destruct (split sep s) as [|g gs] eqn:E.
      * intros [= <- <-]. apply not_elem_of_cons. split; [done|apply not_elem_of_nil].
      * intros [= <- <-]. apply not_elem_of_cons. split; [done|]. by eapply IH.
Qed.


Lemma file_lines_newline_last (text : str) :
  Forall (fun l => forall a b, l = a ++ NL :: b -> b = []) (file_lines text).
Proof.
  induction text as [|c r IH]; [apply Forall_nil_2|]. cbn [file_lines].
  destruct (N.eqb_spec c NL) as [->|Hne].
  - apply Forall_cons. split; [|exact IH].
    intros [|x a] b; cbn; [by intros [= <-]|]. intros [= _ H]. by destruct a.
  - assert (forall l, (forall a b, l = a ++ NL :: b -> b = []) ->
                      forall a b, c :: l = a ++ NL :: b -> b = []) as Hcons.
    { intros l Hl [|x a] b; cbn; [by intros [= ->]|]. intros [= _ H]. by eapply Hl. }
    destruct r as [|c' r].
    + apply Forall_cons. split; [|apply Forall_nil_2]. apply Hcons.
      intros [|x a] b; discriminate.
    + destruct (file_lines (c' :: r)) as [|l ls].
      * apply Forall_cons. split; [|apply Forall_nil_2]. apply Hcons.
        intros [|x a] b; discriminate.
      * apply Forall_cons in IH as [Hl Hls]. apply Forall_cons. split; [|exact Hls].
        by apply Hcons.
Qed.




Lemma lookup_tags_total idxs :
  Forall (fun i => (i < 7)%N) idxs ->
  exists ts, lookup_tags idxs = inr ts /\ length ts = length idxs.
Proof.
  induction 1 as [|i idxs Hi Hidxs (ts & IH & Hlen)]; [by exists []|].
  assert (exists t, idx_to_tag !! i = Some t) as [t Ht].
  { assert (i = 0 \/ i = 1 \/ i = 2 \/ i = 3 \/ i = 4 \/ i = 5 \/ i = 6)%N as Hcases by lia.
    repeat destruct Hcases as [->|Hcases]; try subst i; eexists; vm_compute; reflexivity. }
  exists (t :: ts). split; [|cbn [length]; by rewrite Hlen].
  cbn [lookup_tags]. unfold getitem. by rewrite Ht, bind_mret, IH, bind_inr.
Qed.


(** ** More on [read_dataset] *)





Lemma split_nonempty sep (s : str) : split sep s <> [].
Proof.
  destruct s as [|c s]; cbn [split]; [done|].
  destruct (c =? sep)%N; [done|]. by destruct (split sep s).
Qed.

Lemma split_single sep (s : str) : forall t, split sep s = [t] -> s = t.
Proof.
  induction s as [|c s IH]; intros t; cbn [split]; [by intros [= <-]|].
  destruct (N.eqb_spec c sep) as [->|Hne].
  - intros [= _ H]. by apply split_nonempty in H.
  - destruct (split sep s) as [|f fs] eqn:E; [by apply split_nonempty in E|].
    intros [= <- ->]. by rewrite (IH f eq_refl).
Qed.

Lemma split_pair sep (s : str) : forall w t,
  split sep s = [w; t] -> s = w ++ sep :: t /\ (sep ∉ w) /\ (sep ∉ t).
Proof.
  induction s as [|c s IH]; intros w t; cbn [split]; [discriminate|].
  destruct (N.eqb_spec c sep) as [->|Hne].
  - intros [= <- H]. pose proof (split_single _ _ _ H) as ->.
    split; [reflexivity|]. split; [apply not_elem_of_nil|].
    by apply (split_head_no_sep sep t t []).
  - destruct (split sep s) as [|f fs] eqn:E; [discriminate|].
    intros [= <- ->]. destruct (IH f t eq_refl) as (-> & Hf & Ht).
    split; [reflexivity|]. split; [|exact Ht].
    apply not_elem_of_cons. by split.
Qed.

Lemma lstrip_sub (s : str) c : (c ∈ lstrip s) -> c ∈ s.
Proof.
  destruct (lstrip_suffix s) as [pre Hpre]. intros H. rewrite Hpre.
  apply elem_of_app. by right.
Qed.

Lemma lstrip_keeps (s : str) c : c ∈ s -> isspace_char c = false -> c ∈ lstrip s.
Proof.
  intros Hin Hc. induction s as [|x s IH]; [done|]. cbn [lstrip].
  destruct (isspace_char x) eqn:Hx; [|done].
  apply elem_of_cons in Hin as [->|Hin]; [congruence|by apply IH].
Qed.

Lemma elem_of_rev (l : str) c : c ∈ rev l <-> c ∈ l.
Proof. rewrite !list_elem_of_In. symmetry. apply in_rev. Qed.

Lemma strip_sub (s : str) c : c ∈ strip s -> c ∈ s.
Proof.
  unfold strip, rstrip. rewrite elem_of_rev. intros H.
  apply lstrip_sub in H. rewrite elem_of_rev in H. by apply lstrip_sub.
Qed.

Lemma strip_keeps (s : str) c : c ∈ s -> isspace_char c = false -> c ∈ strip s.
Proof.
  intros Hin Hc. unfold strip, rstrip. rewrite elem_of_rev.
  apply lstrip_keeps; [|exact Hc]. rewrite elem_of_rev. by apply lstrip_keeps.
Qed.

Lemma strip_infix (s : str) : exists pre post, s = pre ++ strip s ++ post.
Proof.
  destruct (lstrip_suffix s) as [pre Hpre].
  destruct (lstrip_suffix (rev (lstrip s))) as [post Hpost].
  exists pre, (rev post). unfold strip, rstrip.
  rewrite <- rev_app_distr, <- Hpost, rev_involutive. exact Hpre.
Qed.

Lemma isspace_elem (l : str) c : c ∈ l -> isspace_char c = false -> isspace l = false.
Proof.
  intros Hin Hc. apply list_elem_of_split in Hin as (a & b & ->).
  by apply isspace_nonspace.
Qed.

Lemma not_isspace_elem (l : str) :
  l <> [] -> isspace l = false -> exists c, c ∈ l /\ isspace_char c = false.
Proof.
  intros Hne H. unfold isspace in H.
  assert (forallb isspace_char l = false) as Hf by (by destruct l).
  clear H Hne. induction l as [|x l IH]; [discriminate|]. cbn [forallb] in Hf.
  destruct (isspace_char x) eqn:Hx.
  - destruct (IH Hf) as (c & Hc & Hs). exists c. split; [by apply list_elem_of_further|done].
  - exists x. split; [apply list_elem_of_here|done].
Qed.

(** What a line with two fields adds to the loop is a readable pair. *)
Lemma read_pair_readable (line w rest : str) :
  (forall a b, line = a ++ NL :: b -> b = []) ->
  isspace line = false -> split splitter line = [w; rest] ->
  readable_pair w (strip rest).
Proof.
  intros Hshape Hb Hsplit. destruct (split_pair _ _ _ _ Hsplit) as (-> & Hw & Hr).
  assert (NL ∉ w) as Hwn.
  { intros Hin. apply list_elem_of_split in Hin as (a & b & ->).
    specialize (Hshape a (b ++ splitter :: rest)). rewrite <- !app_assoc in Hshape.
    specialize (Hshape eq_refl). by destruct b. }
  assert (NL ∉ strip rest) as Htn.
  { intros Hin. apply list_elem_of_split in Hin as (a & b & Hab).
    destruct (strip_infix rest) as (pre & post & Hrest).
    assert (b ++ post = []) as Hnil.
    { apply (Hshape (w ++ splitter :: pre ++ a)). rewrite Hrest at 1. rewrite Hab.
      repeat (rewrite <- app_assoc; cbn [app]). reflexivity. }
    apply app_eq_nil in Hnil as [-> _].
    pose proof (unpadded_strip rest) as Hu. rewrite Hab in Hu.
    unfold unpadded in Hu. rewrite rev_app_distr in Hu. cbn in Hu.
    apply andb_prop in Hu as [_ Hu]. discriminate. }
  split; [by split|]. split; [split; [|exact Htn]|split; [apply unpadded_strip|]].
  - intros Hin. by apply strip_sub in Hin.
  - assert (w ++ splitter :: rest <> []) as Hne by (by destruct w).
    destruct (not_isspace_elem _ Hne Hb) as (c & Hc & Hs).
    apply (isspace_elem _ c); [|exact Hs].
    apply elem_of_app in Hc as [Hc|Hc]; [apply elem_of_app; by left|].
    apply elem_of_cons in Hc as [->|Hc]; [discriminate|].
    apply elem_of_app. right. apply list_elem_of_further.
    apply elem_of_app. left. by apply strip_keeps.
Qed.

Lemma read_line_readable st line st' :
  (forall a b, line = a ++ NL :: b -> b = []) ->
  reader_readable st -> read_line st line = inr st' -> reader_readable st'.
Proof.
  intros Hshape [Hd Hs]. unfold read_line. destruct (isspace line) eqn:Hb; cbn [negb].
  - intros [= <-]. split; [|apply Forall2_nil_2]. cbn [data].
    apply Forall_app. split; [exact Hd|].
    apply Forall_cons. split; [exact Hs|apply Forall_nil_2].
  - destruct (split splitter line) as [|w [|t [|x fs]]] eqn:E; try discriminate.
    cbn [unpack2]. rewrite bind_mret. intros [= <-]. split; [exact Hd|].
    cbn [sentence tags]. apply Forall2_app; [exact Hs|].
    apply Forall2_cons_2; [|apply Forall2_nil_2]. by apply (read_pair_readable line).
Qed.

Lemma read_loop_readable lines : forall st st',
  Forall (fun l => forall a b, l = a ++ NL :: b -> b = []) lines ->
  reader_readable st -> read_loop st lines = inr st' -> reader_readable st'.
Proof.
  induction lines as [|l ls IH]; intros st st' Hl Hst; cbn [read_loop].
  - by intros [= <-].
  - apply Forall_cons in Hl as [Hl Hls].
    destruct (read_line st l) as [e|st1] eqn:E; [discriminate|].
    rewrite bind_inr. apply IH; [exact Hls|]. by eapply read_line_readable.
Qed.

Lemma read_dataset_readable text d :
  read_dataset text = inr d -> Forall (fun s => Forall2 readable_pair s.1 s.2) d.
Proof.
  intros H. destruct (read_dataset_inv _ _ H) as (st & Hst & <-).
  eapply (read_loop_readable _ reader_init st); [|split|exact Hst].
  - apply file_lines_newline_last.
  - apply Forall_nil_2.
  - apply Forall2_nil_2.
Qed.

(** In every sentence that [read_dataset] returns there are as many tags as
    tokens, and no token and no tag holds a tab or a newline. *)
Theorem read_dataset_sentences_paired (text : str) (d : list (list str * list str)) :
  read_dataset text = inr d ->
  Forall (fun s => length s.1 = length s.2
                   /\ Forall clean_word s.1 /\ Forall clean_word s.2) d.
Proof.
  intros H. eapply Forall_impl; [apply (read_dataset_readable _ _ H)|].
  intros [ws ts] Hp. cbn [fst snd] in *. split; [by eapply Forall2_length|].
  induction Hp as [|w t ws ts (Hw & Ht & _) _ [IHw IHt]]; [by split|].
  split; by apply Forall_cons.
Qed.

Lemma read_dataset_sentences_paired_witness :
  Forall (fun s : list str * list str =>
            length s.1 = length s.2 /\ Forall clean_word s.1 /\ Forall clean_word s.2)
         [([py "a"; py "b c"], [py "O"; py ""])].
Proof.
  apply (read_dataset_sentences_paired
           (py "a" ++ [TAB] ++ py " O" ++ [NL] ++ py "b c" ++ [TAB; NL; NL])).
  vm_compute. reflexivity.
Defined.

Lemma read_line_readable_written st (w t : str) :
  readable_pair w t ->
  read_line st ((w ++ TAB :: t) ++ [NL])
  = inr (Reader (data st) (sentence st ++ [w]) (tags st ++ [t])).
Proof.
  intros ([Hw _] & [Ht _] & Hu & Hb).
  rewrite <- app_assoc. cbn [app].
  rewrite (read_line_pair st w (t ++ [NL])).
  - by rewrite strip_newline, (unpadded_strip_id _ Hu).
  - exact Hw.
  - rewrite not_elem_of_app. split; [exact Ht|].
    intros H. apply list_elem_of_singleton in H. discriminate.
  - exact Hb.
Qed.

Lemma read_readable_pairs (ws ts : list str) : forall st rest,
  Forall2 readable_pair ws ts ->
  read_loop st (file_lines
    (concat (map (fun iy : str * str => iy.1 ++ [TAB] ++ iy.2 ++ [NL]) (zip ws ts)) ++ rest))
  = read_loop (Reader (data st) (sentence st ++ ws) (tags st ++ ts)) (file_lines rest).
Proof.
  intros st rest H. revert st.
  induction H as [|w t ws ts Hp Hps IH]; intros st.
  - cbn. rewrite !app_nil_r. by destruct st.
  - set (f := fun iy : str * str => iy.1 ++ [TAB] ++ iy.2 ++ [NL]) in *.
    assert (concat (map f (zip (w :: ws) (t :: ts))) ++ rest
            = (w ++ TAB :: t) ++ NL :: (concat (map f (zip ws ts)) ++ rest)) as ->.
    { cbn [zip zip_with map concat]. unfold f at 1. cbn [fst snd].
      rewrite <- !app_assoc. reflexivity. }
    rewrite file_lines_line.
    + cbn [read_loop]. rewrite (read_line_readable_written st w t Hp), bind_inr, IH.
      cbn [data sentence tags]. by rewrite <- !app_assoc.
    + destruct Hp as ([_ Hw] & [_ Ht] & _).
      rewrite not_elem_of_app, not_elem_of_cons. split; [done|]. split; [done|done].
Qed.

Lemma read_readable_sentences (sents : list (list str * list str)) : forall d,
  Forall (fun s => Forall2 readable_pair s.1 s.2) sents ->
  read_loop (Reader d [] []) (file_lines (write_sentences sents))
  = inr (Reader (d ++ sents) [] []).
Proof.
  induction sents as [|[ws ts] sents IH]; intros d Hs.
  - cbn. by rewrite app_nil_r.
  - apply Forall_cons in Hs as [Hp Hs]. cbn [fst snd] in Hp.
    unfold write_sentences. cbn [map concat fst snd]. fold (write_sentences sents).
    unfold write_sentence. rewrite <- app_assoc.
    rewrite (read_readable_pairs ws ts _ _ Hp).
    change ([NL] ++ write_sentences sents) with ([] ++ NL :: write_sentences sents).
    rewrite file_lines_line by apply not_elem_of_nil.
    cbn [app read_loop data sentence tags]. rewrite read_line_blank by reflexivity.
    rewrite bind_inr. cbn [data sentence tags]. rewrite (IH _ Hs).
    by rewrite <- app_assoc.
Qed.

(** Whatever [read_dataset] returns, written out by the writer and read
    again, is returned unchanged: reading, writing and reading again gives
    the first reading. *)
Theorem read_write_read (text : str) (d : list (list str * list str)) :
  read_dataset text = inr d ->
  read_dataset (write_sentences d) = inr d.
Proof.
  intros H. pose proof (read_dataset_readable _ _ H) as Hd.
  unfold read_dataset, reader_init.
  by rewrite (read_readable_sentences d [] Hd).
Qed.

Lemma read_write_read_witness :
  read_dataset (write_sentences [([py "a"; py "b c"], [py "O"; py ""]); ([], [])])
  = inr [([py "a"; py "b c"], [py "O"; py ""]); ([], [])].
Proof.
  apply (read_write_read
           (py "a" ++ [TAB] ++ py " O" ++ [NL] ++ py "b c" ++ [TAB; NL; NL; NL]
            ++ py "lost" ++ [TAB] ++ py "O")).
  vm_compute. reflexivity.
Defined.

(** ** Files put end to end *)

Lemma file_lines_app (a b : str) :
  complete a -> file_lines (a ++ b) = file_lines a ++ file_lines b.
Proof.
  induction a as [|c r IH]; intros Hc; [reflexivity|].
  cbn [app file_lines].
  destruct (N.eqb_spec c NL) as [->|Hne].
  - rewrite IH; [done|]. destruct r; [by left|]. right.
    destruct Hc as [Hc|Hc]; [done|exact Hc].
  - destruct (complete_cons _ _ Hc Hne) as [Hr Hcr].
    rewrite (IH Hcr). pose proof (file_lines_nonempty r Hr).
    destruct r as [|c' r]; [done|]. cbn [app].
    destruct (file_lines (c' :: r)); [done|reflexivity].
Qed.

Lemma read_line_data_prefix d0 d s t line :
  read_line (Reader (d0 ++ d) s t) line
  = match read_line (Reader d s t) line with
    | inl e => inl e
    | inr st' => inr (Reader (d0 ++ data st') (sentence st') (tags st'))
    end.
Proof.
  unfold read_line. destruct (isspace line); cbn [negb data sentence tags].
  - cbn. by rewrite app_assoc.
  - by destruct (unpack2 (split splitter line)) as [e|[w x]].
Qed.

Lemma read_loop_data_prefix d0 lines : forall d s t,
  read_loop (Reader (d0 ++ d) s t) lines
  = match read_loop (Reader d s t) lines with
    | inl e => inl e
    | inr st' => inr (Reader (d0 ++ data st') (sentence st') (tags st'))
    end.
Proof.
  induction lines as [|l ls IH]; intros d s t; cbn [read_loop]; [reflexivity|].
  rewrite read_line_data_prefix.
  destruct (read_line (Reader d s t) l) as [e|[d1 s1 t1]]; [reflexivity|].
  rewrite !bind_inr. cbn [data sentence tags]. apply IH.
Qed.

(** When a file ends with an empty line, reading it followed by a second
    file gives the sentences of the first and then those of the second, and
    fails as the second fails. *)
Theorem read_dataset_app (a b : str) (da : list (list str * list str)) :
  complete a -> read_dataset (a ++ [NL]) = inr da ->
  read_dataset ((a ++ [NL]) ++ b)
  = match read_dataset b with
    | inl e => inl e
    | inr db => inr (da ++ db)
    end.
Proof.
  intros Hc Ha. destruct (read_dataset_inv _ _ Ha) as (st & Hst & <-).
  rewrite (file_lines_snoc_newline _ Hc), read_loop_app in Hst.
  destruct (read_loop reader_init (file_lines a)) as [e|st0] eqn:E; [discriminate|].
  rewrite bind_inr in Hst. cbn [read_loop] in Hst.
  rewrite read_line_blank in Hst by reflexivity. injection Hst as <-.
  unfold read_dataset.
  rewrite (file_lines_app _ b (complete_snoc_newline a)).
  rewrite (file_lines_snoc_newline _ Hc), !read_loop_app, E, !bind_inr.
  cbn [read_loop]. rewrite read_line_blank by reflexivity. rewrite !bind_inr.
  cbn [data].
  pose proof (read_loop_data_prefix (data st0 ++ [(sentence st0, tags st0)])
                (file_lines b) [] [] []) as Hp.
  rewrite app_nil_r in Hp. rewrite bind_mret, Hp. unfold reader_init.
  destruct (read_loop (Reader [] [] []) (file_lines b)) as [e|st1]; reflexivity.
Qed.

Lemma read_dataset_app_witness :
  read_dataset (((py "a" ++ [TAB] ++ py "O" ++ [NL]) ++ [NL]) ++ py "b" ++ [TAB] ++ py "O" ++ [NL; NL])
  = match read_dataset (py "b" ++ [TAB] ++ py "O" ++ [NL; NL]) with
    | inl e => inl e
    | inr db => inr ([([py "a"], [py "O"])] ++ db)
    end.
Proof.
  apply (read_dataset_app (py "a" ++ [TAB] ++ py "O" ++ [NL])).
  - right. reflexivity.
  - vm_compute. reflexivity.
Defined.

(** ** The vocabulary [word_to_ix] *)

Lemma add_word_dom m w : dom (add_word m w) = {[w]} ∪ dom m.
Proof.
  unfold add_word. destruct (m !! w) as [i|] eqn:E.
  - apply (elem_of_dom_2 m) in E. symmetry. apply subseteq_union_1_L.
    by apply singleton_subseteq_l.
  - apply dom_insert_L.
Qed.

Lemma add_sentence_words_dom sent : forall m,
  dom (add_sentence_words m sent) = list_to_set sent ∪ dom m.
Proof.
  unfold add_sentence_words.
  induction sent as [|w ws IH]; intros m; cbn [fold_left list_to_set].
  - by rewrite (left_id_L ∅ (∪)).
  - rewrite IH, add_word_dom, (assoc_L (∪)). f_equal. apply (comm_L (∪)).
Qed.

Lemma add_data_dom data : forall m,
  dom (add_data m data) = list_to_set (words_of data) ∪ dom m.
Proof.
  unfold add_data, words_of.
  induction data as [|[ws ts] data IH]; intros m; cbn [fold_left fmap list_fmap concat fst].
  - cbn [list_to_set]. by rewrite (left_id_L ∅ (∪)).
  - rewrite IH, add_sentence_words_dom, list_to_set_app_L, (assoc_L (∪)).
    f_equal. apply (comm_L (∪)).
Qed.

Lemma size_list_to_set_remove_dups (l : list str) :
  size (list_to_set l : gset str) = length (remove_dups l).
Proof.
  rewrite <- (size_list_to_set (C := gset str) (remove_dups l)) by apply NoDup_remove_dups.
  f_equal. apply set_eq. intros x. by rewrite !elem_of_list_to_set, elem_of_remove_dups.
Qed.

Lemma word_to_ix_dom (training_data test_data : list (list str * list str)) :
  dom (word_to_ix training_data test_data)
  = list_to_set (words_of training_data ++ words_of test_data).
Proof.
  unfold word_to_ix. rewrite !add_data_dom, list_to_set_app_L, dom_empty_L.
  rewrite (right_id_L ∅ (∪)). apply (comm_L (∪)).
Qed.

(** The keys of [word_to_ix] are exactly the words of the training data and
    of the test data, and [len(word_to_ix)] is the number of distinct
    words. *)
Theorem word_to_ix_keys (training_data test_data : list (list str * list str)) :
  (forall w, is_Some (word_to_ix training_data test_data !! w)
             <-> w ∈ words_of training_data ++ words_of test_data)
  /\ size (word_to_ix training_data test_data)
     = length (remove_dups (words_of training_data ++ words_of test_data)).
Proof.
  pose proof (word_to_ix_dom training_data test_data) as Hdom.
  split.
  - intros w. rewrite <- elem_of_dom, Hdom. apply elem_of_list_to_set.
  - rewrite <- size_dom, Hdom. apply size_list_to_set_remove_dups.
Qed.

Lemma word_to_ix_keys_witness :
  is_Some (word_to_ix [([py "a"; py "b"], [])] [([py "c"], [])] !! py "c").
Proof.
  apply (proj1 (word_to_ix_keys [([py "a"; py "b"], [])] [([py "c"], [])])).
  by_decide.
Defined.

Lemma indexing_empty : indexing ∅.
Proof.
  split; [|split].
  - intros w i H. by rewrite lookup_empty in H.
  - intros w1 w2 i H. by rewrite lookup_empty in H.
  - intros i H. rewrite map_size_empty in H. lia.
Qed.

Lemma indexing_add_word m w : indexing m -> indexing (add_word m w).
Proof.
  intros (Hlt & Hinj & Hsurj). unfold add_word.
  destruct (m !! w) as [i|] eqn:E; [by repeat split|].
  unfold indexing. rewrite (map_size_insert_None _ (size m) _ E).
  split; [|split].
  - intros w' i. rewrite lookup_insert. case_decide.
    + intros [= <-]. lia.
    + intros H'. apply Hlt in H'. lia.
  - intros w1 w2 i. rewrite !lookup_insert.
    repeat case_decide; subst; try done.
    + intros [= <-] H2. apply Hlt in H2. lia.
    + intros H1 [= <-]. apply Hlt in H1. lia.
    + apply Hinj.
  - intros i Hi. destruct (decide (i = size m)) as [->|Hne].
    + exists w. by rewrite lookup_insert_eq.
    + destruct (Hsurj i ltac:(lia)) as [w' Hw']. exists w'.
      rewrite lookup_insert_ne; [done|]. intros ->. congruence.
Qed.

Lemma indexing_add_data data : forall m, indexing m -> indexing (add_data m data).
Proof.
  unfold add_data. induction data as [|[ws ts] data IH]; intros m Hm; [exact Hm|].
  cbn [fold_left fst]. apply IH. unfold add_sentence_words. clear IH.
  revert m Hm. induction ws as [|w ws IHw]; intros m Hm; [exact Hm|].
  cbn [fold_left]. apply IHw. by apply indexing_add_word.
Qed.

(** The indices of [word_to_ix] are the numbers [0, ..., len(word_to_ix) - 1],
    each the index of exactly one word. *)
Theorem word_to_ix_indexing (training_data test_data : list (list str * list str)) :
  indexing (word_to_ix training_data test_data).
Proof.
  unfold word_to_ix. apply indexing_add_data, indexing_add_data, indexing_empty.
Qed.

Lemma add_word_subseteq m w : m ⊆ add_word m w.
Proof.
  unfold add_word. destruct (m !! w) eqn:E; [done|]. by apply insert_subseteq.
Qed.

Lemma add_data_subseteq data : forall m, m ⊆ add_data m data.
Proof.
  unfold add_data. induction data as [|[ws ts] data IH]; intros m; [done|].
  cbn [fold_left fst]. etrans; [|apply IH]. unfold add_sentence_words. clear IH.
  revert m. induction ws as [|w ws IHw]; intros m; [done|].
  cbn [fold_left]. etrans; [apply (add_word_subseteq m w)|apply IHw].
Qed.

(** A word of the training data has in [word_to_ix] the index it has in the
    vocabulary of the training data alone: the loop over the test data
    changes no index. *)
Theorem word_to_ix_keeps_training (training_data test_data : list (list str * list str))
    (w : str) (i : nat) :
  add_data ∅ training_data !! w = Some i ->
  word_to_ix training_data test_data !! w = Some i.
Proof.
  unfold word_to_ix. intros Hw. eapply lookup_weaken; [exact Hw|apply add_data_subseteq].
Qed.

Lemma word_to_ix_keeps_training_witness :
  word_to_ix [([py "a"; py "b"; py "a"], [])] [([py "c"; py "b"], [])] !! py "b" = Some 1.
Proof.
  apply (word_to_ix_keeps_training [([py "a"; py "b"; py "a"], [])] [([py "c"; py "b"], [])]).
  vm_compute. reflexivity.
Defined.

(** ** [prepare_sequence] *)

Section PrepareSequence.
Context {K V : Type} `{Countable K}.

Lemma prepare_sequence_inr (seq : list K) (to_ix : gmap K V) : forall idxs,
  prepare_sequence seq to_ix = inr idxs
  <-> Forall2 (fun w i => to_ix !! w = Some i) seq idxs.
Proof.
  induction seq as [|w seq IH]; intros idxs; cbn [prepare_sequence].
  - split; [intros [= <-]; apply Forall2_nil_2|intros Hf; by inversion Hf].
  - destruct (to_ix !! w) as [i|] eqn:E.
    + destruct (prepare_sequence seq to_ix) as [k|idxs'] eqn:Ep.
      * split; [discriminate|]. intros Hf. inversion Hf as [|? j ? js Hj Hjs]; subst.
        apply IH in Hjs. discriminate.
      * split.
        -- intros [= <-]. apply Forall2_cons_2; [exact E|]. by apply IH.
        -- intros Hf. inversion Hf as [|? j ? js Hj Hjs]; subst.
           apply IH in Hjs. injection Hjs as <-. congruence.
    + split; [discriminate|]. intros Hf. inversion Hf; subst. congruence.
Qed.

Lemma prepare_sequence_inl (seq : list K) (to_ix : gmap K V) : forall k,
  prepare_sequence seq to_ix = inl k
  <-> exists pre post, seq = pre ++ k :: post
                       /\ Forall (fun w => is_Some (to_ix !! w)) pre
                       /\ to_ix !! k = None.
Proof.
  induction seq as [|w seq IH]; intros k; cbn [prepare_sequence].
  - split; [discriminate|]. intros (pre & post & Hs & _). by destruct pre.
  - destruct (to_ix !! w) as [i|] eqn:E.
    + destruct (prepare_sequence seq to_ix) as [k'|idxs'] eqn:Ep.
      * split.
        -- intros [= ->]. destruct (proj1 (IH k) eq_refl) as (pre & post & -> & Hpre & Hk).
           exists (w :: pre), post. split; [reflexivity|]. split; [|exact Hk].
           apply Forall_cons. split; [by rewrite E|exact Hpre].
        -- intros (pre & post & Hs & Hpre & Hk). destruct pre as [|x pre].
           ++ injection Hs as -> _. congruence.
           ++ injection Hs as -> ->. apply Forall_cons in Hpre as [_ Hpre].
              f_equal. assert (inl k' = inl k :> K + list V) as Heq; [|by injection Heq].
              apply IH. by exists pre, post.
      * split; [discriminate|]. intros (pre & post & Hs & Hpre & Hk).
        destruct pre as [|x pre].
        -- injection Hs as -> _. congruence.
        -- injection Hs as -> ->. apply Forall_cons in Hpre as [_ Hpre].
           assert (inr idxs' = inl k :> K + list V) as Heq; [|discriminate].
           apply IH. by exists pre, post.
    + split.
      * intros [= <-]. exists [], seq. split; [reflexivity|]. split; [apply Forall_nil_2|exact E].
      * intros (pre & post & Hs & Hpre & Hk). destruct pre as [|x pre].
        -- by injection Hs as -> _.
        -- injection Hs as -> ->. apply Forall_cons in Hpre as [[? Hx] _]. congruence.
Qed.
End PrepareSequence.

(** [prepare_sequence] raises [KeyError] exactly when an element is not a
    key, and the key of the error is the first such element. *)
Theorem prepare_sequence_raises {K V} `{Countable K}
    (seq : list K) (to_ix : gmap K V) :
  (forall k, prepare_sequence seq to_ix = inl k
             <-> exists pre post, seq = pre ++ k :: post
                                  /\ Forall (fun w => is_Some (to_ix !! w)) pre
                                  /\ to_ix !! k = None)
  /\ ((exists k, prepare_sequence seq to_ix = inl k)
      <-> Exists (fun w => to_ix !! w = None) seq).
Proof.
  split; [apply prepare_sequence_inl|]. split.
  - intros [k Hk]. apply prepare_sequence_inl in Hk as (pre & post & -> & _ & Hk).
    apply Exists_app. right. by apply Exists_cons_hd.
  - intros He. destruct (prepare_sequence seq to_ix) as [k|idxs] eqn:E; [eauto|].
    apply prepare_sequence_inr in E. exfalso.
    induction E as [|w i ws ixs Hw _ IH]; [by inversion He|].
    apply Exists_cons in He as [He|He]; [congruence|by apply IH].
Qed.

Lemma prepare_sequence_raises_witness :
  exists k, prepare_sequence [py "a"; py "zz"; py "b"] (word_to_ix [([py "a"; py "b"], [])] [])
            = inl k.
Proof.
  apply (proj2 (proj2 (prepare_sequence_raises [py "a"; py "zz"; py "b"]
                         (word_to_ix [([py "a"; py "b"], [])] [])))).
  apply Exists_cons_tl, Exists_cons_hd. vm_compute. reflexivity.
Defined.

Lemma prepare_sequence_total {K V} `{Countable K} (seq : list K) (to_ix : gmap K V) :
  Forall (fun w => is_Some (to_ix !! w)) seq ->
  exists idxs, prepare_sequence seq to_ix = inr idxs.
Proof.
  induction 1 as [|w ws [i Hi] _ [idxs IH]]; [by exists []|].
  exists (i :: idxs). cbn [prepare_sequence]. by rewrite Hi, IH.
Qed.

(** For every sentence of the training data and of the test data,
    [prepare_sequence(sentence, word_to_ix)] raises no [KeyError]: it returns
    one index for each word, each below [len(word_to_ix)]. *)
Theorem prepare_sequence_word_to_ix (training_data test_data : list (list str * list str))
    (s : list str * list str) :
  s ∈ training_data ++ test_data ->
  exists idxs,
    prepare_sequence s.1 (word_to_ix training_data test_data) = inr idxs
    /\ length idxs = length s.1
    /\ Forall (fun i => i < size (word_to_ix training_data test_data)) idxs.
Proof.
  intros Hs.
  assert (Forall (fun w => is_Some (word_to_ix training_data test_data !! w)) s.1) as Hkeys.
  { apply Forall_forall. intros w Hw. apply elem_of_dom.
    rewrite word_to_ix_dom, elem_of_list_to_set. unfold words_of.
    rewrite <- concat_app, <- fmap_app. apply list_elem_of_In, in_concat.
    exists s.1. split; [|by apply list_elem_of_In].
    apply list_elem_of_In. by apply list_elem_of_fmap_2. }
  destruct (prepare_sequence_total _ _ Hkeys) as [idxs Hp]. exists idxs.
  split; [exact Hp|]. apply prepare_sequence_inr in Hp.
  split; [symmetry; by eapply Forall2_length|].
  assert (indexing (word_to_ix training_data test_data)) as (Hlt & _).
  { unfold word_to_ix. apply indexing_add_data, indexing_add_data, indexing_empty. }
  clear Hkeys. induction Hp as [|w i ws ixs Hw _ IH]; [apply Forall_nil_2|].
  apply Forall_cons. split; [by eapply Hlt|exact IH].
Qed.

Lemma prepare_sequence_word_to_ix_witness :
  exists idxs,
    prepare_sequence ([py "c"; py "a"], [py "O"; py "O"]).1
      (word_to_ix [([py "a"; py "b"], [py "O"; py "O"])] [([py "c"; py "a"], [py "O"; py "O"])])
    = inr idxs
    /\ length idxs = length ([py "c"; py "a"], [py "O"; py "O"]).1
    /\ Forall (fun i => i < size (word_to_ix [([py "a"; py "b"], [py "O"; py "O"])]
                                    [([py "c"; py "a"], [py "O"; py "O"])])) idxs.
Proof.
  apply (prepare_sequence_word_to_ix
           [([py "a"; py "b"], [py "O"; py "O"])] [([py "c"; py "a"], [py "O"; py "O"])]).
  apply list_elem_of_further, list_elem_of_here.
Defined.

(** ** Tags as targets *)

Lemma tag_to_ix_items :
  map_to_list tag_to_ix
  ≡ₚ [ (py "O", 0%N); (py "B-Object", 1%N); (py "I-Object", 2%N);
       (py "B-Aspect", 3%N); (py "I-Aspect", 4%N); (py "B-Predicate", 5%N);
       (py "I-Predicate", 6%N) ].
Proof. vm_compute. by_decide. Qed.

Lemma tag_to_ix_inverse t i :
  tag_to_ix !! t = Some i <-> idx_to_tag !! i = Some t.
Proof.
  split; [|by intros H; apply idx_to_tag_lookup].
  intros H. apply elem_of_map_to_list in H. rewrite tag_to_ix_items in H.
  repeat (apply elem_of_cons in H as [[= -> ->]|H]; [vm_compute; reflexivity|]).
  by apply elem_of_nil in H.
Qed.

Lemma tag_to_ix_closed t i :
  tag_to_ix !! t = Some i -> t ∈ closed_tags /\ (i < 7)%N.
Proof.
  intros H. apply elem_of_map_to_list in H. rewrite tag_to_ix_items in H.
  repeat (apply elem_of_cons in H as [[= -> ->]|H]; [split; [by_decide|reflexivity]|]).
  by apply elem_of_nil in H.
Qed.

Lemma lookup_tags_inr idxs : forall ts,
  lookup_tags idxs = inr ts <-> Forall2 (fun i t => idx_to_tag !! i = Some t) idxs ts.
Proof.
  induction idxs as [|i idxs IH]; intros ts; cbn [lookup_tags].
  - split; [intros [= <-]; apply Forall2_nil_2|intros Hf; by inversion Hf].
  - unfold getitem. destruct (idx_to_tag !! i) as [t|] eqn:E.
    + rewrite bind_mret. destruct (lookup_tags idxs) as [e|ts'] eqn:El.
      * split; [discriminate|]. intros Hf. inversion Hf as [|? t' ? ts'' Ht Hts]; subst.
        apply IH in Hts. discriminate.
      * rewrite bind_inr. split.
        -- intros [= <-]. apply Forall2_cons_2; [exact E|]. by apply IH.
        -- intros Hf. inversion Hf as [|? t' ? ts'' Ht Hts]; subst.
           apply IH in Hts. injection Hts as <-.
           rewrite E in Ht. injection Ht as <-. reflexivity.
    + split; [discriminate|]. intros Hf. inversion Hf; subst. congruence.
Qed.

(** The indices that [prepare_sequence(tags, tag_to_ix)] gives for a list of
    tags are exactly the indices that the comprehension over [idx_to_tag]
    turns back into these tags. *)
Theorem targets_round_trip (tags : list str) (idxs : list N) :
  prepare_sequence tags tag_to_ix = inr idxs <-> lookup_tags idxs = inr tags.
Proof.
  rewrite prepare_sequence_inr, lookup_tags_inr. split; intros Hf.
  - apply Forall2_flip. eapply Forall2_impl; [exact Hf|].
    intros t i. apply tag_to_ix_inverse.
  - apply Forall2_flip in Hf. eapply Forall2_impl; [exact Hf|].
    intros t i. apply tag_to_ix_inverse.
Qed.

Lemma targets_round_trip_witness :
  lookup_tags [0%N; 5%N; 6%N] = inr [py "O"; py "B-Predicate"; py "I-Predicate"].
Proof.
  apply (proj1 (targets_round_trip [py "O"; py "B-Predicate"; py "I-Predicate"]
                  [0%N; 5%N; 6%N])).
  vm_compute. reflexivity.
Defined.

(** [prepare_sequence(tags, tag_to_ix)] returns, with every index below
    [len(tag_to_ix) = 7], when all the tags are among the seven; otherwise it
    raises [KeyError] with a tag that is not one of the seven. *)
Theorem targets_of_closed_tags (tags : list str) :
  (Forall (fun t => t ∈ closed_tags) tags ->
   exists idxs, prepare_sequence tags tag_to_ix = inr idxs
                /\ length idxs = length tags
                /\ Forall (fun i => (i < 7)%N) idxs)
  /\ (forall k, prepare_sequence tags tag_to_ix = inl k ->
                k ∈ tags /\ k ∉ closed_tags).
Proof.
  split.
  - intros Hc.
    assert (Forall (fun t => is_Some (tag_to_ix !! t)) tags) as Hkeys.
    { eapply Forall_impl; [exact Hc|]. intros t Ht. cbn in Ht.
      destruct (tag_to_ix_lookup t Ht) as (i & Hi & _). by exists i. }
    destruct (prepare_sequence_total _ _ Hkeys) as [idxs Hp]. exists idxs.
    split; [exact Hp|]. apply prepare_sequence_inr in Hp.
    split; [symmetry; by eapply Forall2_length|].
    clear Hc Hkeys. induction Hp as [|t i ts ixs Ht _ IH]; [apply Forall_nil_2|].
    apply Forall_cons. split; [by apply (tag_to_ix_closed t i)|exact IH].
  - intros k Hk. apply prepare_sequence_inl in Hk as (pre & post & -> & _ & Hk).
    split; [apply elem_of_app; right; apply list_elem_of_here|].
    intros Hin. destruct (tag_to_ix_lookup k Hin) as (i & Hi & _). congruence.
Qed.

Lemma targets_of_closed_tags_witness :
  exists idxs, prepare_sequence [py "B-Aspect"; py "O"] tag_to_ix = inr idxs
               /\ length idxs = length [py "B-Aspect"; py "O"]
               /\ Forall (fun i => (i < 7)%N) idxs.
Proof.
  apply (proj1 (targets_of_closed_tags [py "B-Aspect"; py "O"])). by_decide.
Defined.

(** ** The [KeyError] of the inference loop *)

Lemma idx_to_tag_bound i : is_Some (idx_to_tag !! i) <-> (i < 7)%N.
Proof.
  split.
  - intros [t Ht]. apply idx_to_tag_lookup in Ht as [_ Ht].
    by apply tag_to_ix_closed in Ht as [_ Ht].
  - intros Hi.
    assert (i = 0 \/ i = 1 \/ i = 2 \/ i = 3 \/ i = 4 \/ i = 5 \/ i = 6)%N as Hcases by lia.
    repeat destruct Hcases as [->|Hcases]; try subst i; eexists; vm_compute; reflexivity.
Qed.

Lemma lookup_tags_inl idxs : forall e,
  lookup_tags idxs = inl e ->
  exists i, i ∈ idxs /\ (7 <= i)%N /\ e = KeyError i.
Proof.
  induction idxs as [|i idxs IH]; intros e; cbn [lookup_tags]; [discriminate|].
  unfold getitem. destruct (idx_to_tag !! i) as [t|] eqn:E.
  - rewrite bind_mret. destruct (lookup_tags idxs) as [e'|ts] eqn:El; [|discriminate].
    rewrite bind_inl. intros [= <-]. destruct (IH e' eq_refl) as (j & Hj & Hge & ->).
    exists j. split; [apply list_elem_of_further; exact Hj|]. split; [exact Hge|reflexivity].
  - intros [= <-]. exists i. split; [apply list_elem_of_here|]. split; [|reflexivity].
    destruct (N.le_gt_cases 7 i) as [Hge|Hlt]; [exact Hge|].
    apply idx_to_tag_bound in Hlt as [t Ht]. rewrite E in Ht. discriminate.
Qed.

Lemma lookup_tags_returns idxs :
  (exists ts, lookup_tags idxs = inr ts) <-> Forall (fun i => (i < 7)%N) idxs.
Proof.
  split.
  - intros [ts Hts]. apply lookup_tags_inr in Hts.
    induction Hts as [|i t idxs ts Hi _ IH]; [apply Forall_nil_2|].
    apply Forall_cons. split; [|exact IH]. apply idx_to_tag_bound. by exists t.
  - intros Hlt. destruct (lookup_tags_total _ Hlt) as (ts & Hts & _). by exists ts.
Qed.

Lemma write_loop_returns tagger test_data : forall w,
  (exists out, write_loop tagger w test_data = inr out)
  <-> Forall (fun s => Forall (fun i => (i < 7)%N) (tagger s.1)) test_data.
Proof.
  induction test_data as [|s rest IH]; intros w; cbn [write_loop].
  - split; [intros _; apply Forall_nil_2|eauto].
  - rewrite Forall_cons, <- lookup_tags_returns.
    destruct (lookup_tags (tagger s.1)) as [e|ts].
    + split; [intros [? ?]; discriminate|intros [[? ?] _]; discriminate].
    + rewrite bind_inr, IH. split; [eauto|by intros [_ ?]].
Qed.

Lemma write_loop_raises tagger test_data : forall w e,
  write_loop tagger w test_data = inl e ->
  exists s i, s ∈ test_data /\ i ∈ tagger s.1 /\ (7 <= i)%N /\ e = KeyError i.
Proof.
  induction test_data as [|s rest IH]; intros w e; cbn [write_loop]; [discriminate|].
  destruct (lookup_tags (tagger s.1)) as [e'|ts] eqn:El.
  - rewrite bind_inl. intros [= <-].
    destruct (lookup_tags_inl _ _ El) as (i & Hi & Hge & ->).
    exists s, i. split; [apply list_elem_of_here|]. split; [exact Hi|]. split; [exact Hge|reflexivity].
  - rewrite bind_inr. intros Hw. destruct (IH _ _ Hw) as (s' & i & Hs & Hrest).
    exists s', i. split; [apply list_elem_of_further; exact Hs|exact Hrest].
Qed.

(** The inference loop writes the whole file exactly when every index that
    the tagger gives is below seven; otherwise it raises [KeyError] with an
    index of seven or more that the tagger gave for a sentence of the test
    data. *)
Theorem write_test_file_key_error (tagger : list str -> list N)
    (test_data : list (list str * list str)) :
  ((exists out, write_test_file tagger test_data = inr out)
   <-> Forall (fun s => Forall (fun i => (i < 7)%N) (tagger s.1)) test_data)
  /\ (forall e, write_test_file tagger test_data = inl e ->
        exists s i, s ∈ test_data /\ i ∈ tagger s.1 /\ (7 <= i)%N /\ e = KeyError i).
Proof.
  split; [apply write_loop_returns|]. intros e. apply write_loop_raises.
Qed.

Lemma write_test_file_key_error_witness :
  exists s i, s ∈ [([py "a"; py "b"], [py "O"; py "O"])]
              /\ i ∈ (fun ws : list str => map (fun _ => 9%N) ws) s.1
              /\ (7 <= i)%N /\ KeyError 9 = KeyError i.
Proof.
  apply (proj2 (write_test_file_key_error (fun ws => map (fun _ => 9%N) ws)
                  [([py "a"; py "b"], [py "O"; py "O"])])).
  vm_compute. reflexivity.
Defined.

